(** * CI fix agent: diagnosis engine and remediation dispatcher

    A shallow embedding of [agent.py]: the string operations the agent
    relies on ([in], [str.split], [str.strip]), the pure diagnosis
    function [CIFixAgent.diagnose], and the effectful part
    ([FilesystemTool.add_dependency], [GitHubTool.post_pr_comment],
    [CIFixAgent.act], [CIFixAgent.run]) over an explicit world that holds
    the manifest file, the answers of the forge API and a trace of the
    observable events.  The constructor of [GitHubTool], which reads the
    credentials and identifiers from the environment, runs before any of
    this and is not part of the embedding; the addresses of the requests,
    which only depend on those identifiers, are left out of the events. *)

From Stdlib Require Import String Ascii List NArith Arith Lia Bool.
Import ListNotations.
Open Scope list_scope.

(** ** Python exceptions and the two monads of the embedding *)

Inductive exn : Type :=
| ValueError
| IndexError
| FileNotFoundError
| PermissionError
| ConnectionError
| HTTPError
| BadZipFile
| JSONDecodeError
| UnicodeDecodeError
| UnicodeEncodeError.

(** A computation that either raises or returns. *)
Definition result (A : Type) : Type := (exn + A)%type.

Class Monad (m : Type -> Type) : Type := {
  ret : forall {A}, A -> m A;
  bind : forall {A B}, m A -> (A -> m B) -> m B
}.

Notation "x <- c1 ;; c2" := (bind c1 (fun x => c2))
  (at level 61, c1 at next level, right associativity).
Notation "c1 ;; c2" := (bind c1 (fun _ => c2))
  (at level 61, right associativity).

#[export] Instance result_monad : Monad result := {
  ret := fun A (a : A) => inr a;
  bind := fun A B (c : result A) (k : A -> result B) =>
            match c with
            | inl e => inl e
            | inr a => k a
            end
}.

(** ** Python strings: sequences of Unicode code points *)

Module PyStr.

Definition char : Type := N.
Definition str : Type := list char.

(** ASCII literals of the source, as code points. *)
Definition of_string (s : string) : str :=
  map N_of_ascii (list_ascii_of_string s).

Definition nl : char := 10%N.

(** [s.startswith(sub)] *)
Fixpoint startswith (s sub : str) : bool :=
  match sub, s with
  | [], _ => true
  | _ :: _, [] => false
  | a :: sub', b :: s' => (a =? b)%N && startswith s' sub'
  end.

(** [s.find(sub)]: the lowest index at which [sub] occurs, if any. *)
Fixpoint find (s sub : str) : option nat :=
  if startswith s sub then Some 0
  else match s with
       | [] => None
       | _ :: s' => option_map S (find s' sub)
       end.

(** [sub in s] *)
Definition contains (s sub : str) : bool :=
  match find s sub with
  | Some _ => true
  | None => false
  end.

(** The loop of [s.split(sep)] for a non-empty separator: cut at the
    lowest occurrence, continue behind it.  Every round consumes at
    least one character, so [length s] rounds are enough. *)
Fixpoint split_loop (fuel : nat) (s sep : str) : list str :=
  match find s sep with
  | None => [s]
  | Some i =>
      match fuel with
      | O => [s]
      | S n => firstn i s :: split_loop n (skipn (i + length sep) s) sep
      end
  end.

(** [s.split(sep)]; an empty separator raises [ValueError]. *)
Definition split (s sep : str) : result (list str) :=
  match sep with
  | [] => inl ValueError
  | _ :: _ => inr (split_loop (length s) s sep)
  end.

(** [l[-1]]; raises [IndexError] on the empty list. *)
Fixpoint last_item {A : Type} (l : list A) : result A :=
  match l with
  | [] => inl IndexError
  | [x] => inr x
  | _ :: l' => last_item l'
  end.

Fixpoint lstrip_by (p : char -> bool) (s : str) : str :=
  match s with
  | [] => []
  | c :: s' => if p c then lstrip_by p s' else s
  end.

Definition rstrip_by (p : char -> bool) (s : str) : str :=
  rev (lstrip_by p (rev s)).

Definition strip_by (p : char -> bool) (s : str) : str :=
  rstrip_by p (lstrip_by p s).

(** [c.isspace()]: the code points [str.strip()] removes. *)
Definition isspace (c : char) : bool :=
  ((9 <=? c) && (c <=? 13) || (28 <=? c) && (c <=? 32)
   || (c =? 133) || (c =? 160) || (c =? 5760)
   || (8192 <=? c) && (c <=? 8202)
   || (c =? 8232) || (c =? 8233) || (c =? 8239) || (c =? 8287)
   || (c =? 12288))%N.

(** [s.strip()] *)
Definition strip (s : str) : str := strip_by isspace s.

Definition mem (chars : str) (c : char) : bool :=
  existsb (N.eqb c) chars.

(** [s.strip(chars)] *)
Definition strip_chars (s chars : str) : str := strip_by (mem chars) s.

End PyStr.

Import PyStr.

(** ** The diagnosis engine *)

Inductive Diagnosis : Type :=
| MissingDependency (name : str)
| Unknown.

Definition ModuleNotFoundError : str := of_string "ModuleNotFoundError".
Definition No_module_named : str := of_string "No module named".

(** The two quote characters, ['] and the double quote. *)
Definition quotes : str := [39%N; 34%N].

Definition is_quote (c : char) : bool := mem quotes c.

(** [CIFixAgent.diagnose] *)
Definition diagnose (logs : str) : result Diagnosis :=
  if contains logs ModuleNotFoundError then
    parts <- split logs No_module_named ;;
    piece <- last_item parts ;;
    let missing := strip_chars (strip piece) quotes in
    ret (MissingDependency missing)
  else
    ret Unknown.

(** ** The world the agent acts on *)

(** The carriage return. *)
Definition cr : char := 13%N.

(** A surrogate code point, U+D800 to U+DFFF.  The UTF-8 codec neither
    encodes one nor produces one. *)
Definition is_surrogate (c : char) : bool :=
  ((55296 <=? c) && (c <=? 57343))%N.

Definition has_surrogate (s : str) : bool := existsb is_surrogate s.

(** Universal newlines, as a text file opened for reading applies
    them: a carriage return with a line feed behind it, and a carriage
    return alone, both read as one line feed. *)
Fixpoint universal_newlines (s : str) : str :=
  match s with
  | [] => []
  | c :: rest =>
      if (c =? cr)%N then
        nl :: match rest with
              | [] => []
              | d :: rest' =>
                  if (d =? nl)%N then universal_newlines rest'
                  else universal_newlines rest
              end
      else c :: universal_newlines rest
  end.

(** [requirements.txt]: absent, or a regular file with its permissions.
    The content is the bytes of the file seen through UTF-8 with the
    [surrogateescape] handler, which is one to one: well-formed UTF-8 is
    the text it encodes, any other byte is a lone surrogate.  The codec
    of [Path.read_text] and [Path.write_text] is strict, so it raises
    exactly on a surrogate.  The encoding of the locale is taken to be
    UTF-8 and the line separator of the platform to be the line feed. *)
Inductive File : Type :=
| Absent
| Present (content : str) (readable writable : bool).

(** What the process does to the outside, in order: each file access,
    each request sent to the forge, each call of the reporting sink and
    each console line. *)
Inductive Event : Type :=
| ReadText
| WriteText (data : str)
| FetchLogs
| SinkCall (body : str)
| GetRun
| PostComment (pr_number : N) (body : str)
| Print (line : str).

(** The forge answers are given by the environment: [logs_archive] is
    what [get_ci_logs] ends with (the decoded archive, or the exception
    of the request, of [raise_for_status] or of the decoder);
    [run_info] is the parsed run object reduced to the numbers under
    its [pull_requests] key (absent, null and empty are all falsy and
    read as the empty list), or the exception of the request;
    [comment_post] is the answer to the comment request: an exception,
    or a response whose status code the source never reads. *)
Record World : Type := {
  requirements : File;
  logs_archive : result str;
  run_info : result (list N);
  comment_post : result N;
  trace : list Event
}.

Definition with_requirements (f : File) (w : World) : World :=
  {| requirements := f;
     logs_archive := logs_archive w;
     run_info := run_info w;
     comment_post := comment_post w;
     trace := trace w |}.

Definition with_trace (t : list Event) (w : World) : World :=
  {| requirements := requirements w;
     logs_archive := logs_archive w;
     run_info := run_info w;
     comment_post := comment_post w;
     trace := t |}.

(** Effectful code: state passing, with exceptions. *)
Definition M (A : Type) : Type := World -> result A * World.

#[export] Instance M_monad : Monad M := {
  ret := fun A (a : A) (w : World) => (inr a, w);
  bind := fun A B (c : M A) (k : A -> M B) (w : World) =>
            match c w with
            | (inl e, w') => (inl e, w')
            | (inr a, w') => k a w'
            end
}.

Definition raise {A : Type} (e : exn) : M A := fun w => (inl e, w).

Definition lift {A : Type} (r : result A) : M A := fun w => (r, w).

Definition emit (e : Event) : M unit :=
  fun w => (inr tt, with_trace (trace w ++ [e]) w).

Definition ask {A : Type} (q : World -> result A) : M A :=
  fun w => (q w, w).

(** [print(line)] *)
Definition print (line : str) : M unit := emit (Print line).

(** [Path("requirements.txt").read_text()]: open, decode, translate the
    line ends. *)
Definition read_text : M str :=
  emit ReadText ;;
  ask (fun w => match requirements w with
                | Absent => inl FileNotFoundError
                | Present _ false _ => inl PermissionError
                | Present c true _ =>
                    if has_surrogate c then inl UnicodeDecodeError
                    else inr (universal_newlines c)
                end).

(** What [write] leaves in a file that [open] has just emptied: the
    data, or nothing when the codec rejects the data. *)
Definition written (data : str) : result unit * str :=
  if has_surrogate data then (inl UnicodeEncodeError, [])
  else (inr tt, data).

(** [Path("requirements.txt").write_text(data)]: open for writing, which
    creates or empties the file, then encode and write. *)
Definition write_text (data : str) : M unit :=
  emit (WriteText data) ;;
  fun w => match requirements w with
           | Absent =>
               (fst (written data),
                with_requirements (Present (snd (written data)) true true) w)
           | Present _ r true =>
               (fst (written data),
                with_requirements (Present (snd (written data)) r true) w)
           | Present _ _ false => (inl PermissionError, w)
           end.

(** [GitHubTool.get_ci_logs] *)
Definition get_ci_logs : M str :=
  emit FetchLogs ;;
  ask logs_archive.

Definition no_pr_line : str :=
  of_string "No PR associated with this workflow run.".

(** [GitHubTool.post_pr_comment] *)
Definition post_pr_comment (body : str) : M unit :=
  emit (SinkCall body) ;;
  emit GetRun ;;
  pull_requests <- ask run_info ;;
  match pull_requests with
  | [] => print no_pr_line
  | pr_number :: _ =>
      emit (PostComment pr_number body) ;;
      _ <- ask comment_post ;;
      ret tt
  end.

(** [FilesystemTool.add_dependency] *)
Definition add_dependency (dependency : str) : M unit :=
  content <- read_text ;;
  if negb (contains content dependency) then
    write_text (content ++ [nl] ++ dependency ++ [nl])
  else
    ret tt.

(** The comment body [act] formats for a dependency. *)
Definition report (dep : str) : str :=
  [nl; 129302%N] ++ of_string " **CI Janitor Report**" ++ [nl; nl]
  ++ of_string "**Error Detected**" ++ [nl]
  ++ of_string "- Missing Python dependency: `" ++ dep ++ of_string "`"
  ++ [nl; nl]
  ++ of_string "**Root Cause**" ++ [nl]
  ++ of_string "- Dependency not listed in `requirements.txt`" ++ [nl; nl]
  ++ of_string "**Proposed Fix**" ++ [nl]
  ++ of_string "- Added `" ++ dep ++ of_string "` to dependencies"
  ++ [nl; nl]
  ++ of_string "**Status**" ++ [nl]
  ++ of_string "- Awaiting human approval before merge" ++ [nl].

Definition proposed_fix_line (dep : str) : str :=
  [10004%N] ++ of_string " Proposed fix for missing dependency: " ++ dep.

Definition no_fix_line : str :=
  of_string "No fixable CI hygiene issue detected.".

(** [CIFixAgent.act] *)
Definition act (diagnosis : Diagnosis) : M unit :=
  match diagnosis with
  | MissingDependency dep =>
      add_dependency dep ;;
      let comment := report dep in
      post_pr_comment comment ;;
      print (proposed_fix_line dep)
  | Unknown =>
      print no_fix_line
  end.

(** [CIFixAgent.run] *)
Definition run : M unit :=
  logs <- get_ci_logs ;;
  diagnosis <- lift (diagnose logs) ;;
  act diagnosis.

(** The reporting-sink calls and the file writes among some events. *)
Fixpoint sink_calls (t : list Event) : list str :=
  match t with
  | [] => []
  | SinkCall body :: t' => body :: sink_calls t'
  | _ :: t' => sink_calls t'
  end.

Fixpoint file_writes (t : list Event) : list str :=
  match t with
  | [] => []
  | WriteText data :: t' => data :: file_writes t'
  | _ :: t' => file_writes t'
  end.

Fixpoint printed (t : list Event) : list str :=
  match t with
  | [] => []
  | Print line :: t' => line :: printed t'
  | _ :: t' => printed t'
  end.

(** ** Notions the statements below are phrased with *)

(** [sub] occurs in [s] at index [i]. *)
Definition occurs_at (s sub : str) (i : nat) : Prop :=
  startswith (skipn i s) sub = true.

(** No proper suffix of [sep] is also a prefix of it: two occurrences of
    such a separator never overlap. *)
Definition borderless (sep : str) : Prop :=
  forall j, 0 < j < length sep -> startswith sep (skipn j sep) = false.

Definition borderlessb (sep : str) : bool :=
  forallb (fun j => negb (startswith sep (skipn j sep)))
          (seq 1 (length sep - 1)).

(** The number of indices at which [sub] occurs in [s]. *)
Fixpoint occurrences (s sub : str) : nat :=
  (if startswith s sub then 1 else 0)
  + match s with
    | [] => 0
    | _ :: s' => occurrences s' sub
    end.

(** The manifest read as a list of entries, one per line, and the number
    of entries equal to a name. *)
Definition entries (manifest : str) : list str :=
  split_loop (length manifest) manifest [nl].

Definition entry_count (manifest name : str) : nat :=
  count_occ (list_eq_dec N.eq_dec) (entries manifest) name.

(** The dependency name in the words of the specification, for
    comparison with [diagnose]: the text behind the last occurrence of the
    marker, up to the end of that line, without surrounding whitespace
    and without one quote character at either end. *)
Fixpoint spec_after_last (s marker : str) : option str :=
  match match s with
        | [] => None
        | _ :: s' => spec_after_last s' marker
        end
  with
  | Some r => Some r
  | None => if startswith s marker
            then Some (skipn (length marker) s)
            else None
  end.

Fixpoint spec_until_eol (s : str) : str :=
  match s with
  | [] => []
  | c :: s' => if (c =? nl)%N then [] else c :: spec_until_eol s'
  end.

Definition spec_drop_one (p : char -> bool) (s : str) : str :=
  match s with
  | [] => []
  | c :: s' => if p c then s' else s
  end.

Definition spec_strip_one_layer (s : str) : str :=
  rev (spec_drop_one is_quote (rev (spec_drop_one is_quote s))).

Definition spec_diagnose (marker logs : str) : Diagnosis :=
  match spec_after_last logs marker with
  | Some r => MissingDependency (spec_strip_one_layer (strip (spec_until_eol r)))
  | None => Unknown
  end.

(** [s] begins or ends with a character of the class [p]. *)
Definition edge_in (p : char -> bool) (s : str) : bool :=
  match s with
  | [] => false
  | c :: _ => p c
  end
  || match rev s with
     | [] => false
     | c :: _ => p c
     end.

(** The invariant the data model words for a dependency name. *)
Definition name_invariant (name : str) : Prop :=
  name <> [] /\ edge_in is_quote name = false /\ edge_in isspace name = false.

(** The exception the reporting sink ends with in a world, if any: the
    run request fails, or a pull request exists and the comment request
    fails. *)
Definition sink_error (w : World) : option exn :=
  match run_info w with
  | inl e => Some e
  | inr [] => None
  | inr (_ :: _) =>
      match comment_post w with
      | inl e => Some e
      | inr _ => None
      end
  end.

(** ** Sample inputs *)

(** A log whose failing import is followed by a further line. *)
Definition log_with_trailer : str :=
  of_string "ModuleNotFoundError: No module named 'yaml'" ++ [nl]
  ++ of_string "Error: Process completed with exit code 1.".

(** The module name of the interpreter message, and the log that ends
    with that message. *)
Definition yaml : str := of_string "yaml".

Definition yaml_message : str :=
  of_string "ModuleNotFoundError: No module named 'yaml'".

Definition log_empty_name : str :=
  of_string "ModuleNotFoundError: No module named ''".

Definition log_padded_name : str :=
  of_string "ModuleNotFoundError: No module named ' yaml '".

Definition log_gate_only : str :=
  of_string "ModuleNotFoundError" ++ [nl] ++ of_string "'build' failed".

Definition flask : str := of_string "flask".

(** A world with the given manifest and logs, a run that belongs to pull
    request 7, and a forge that accepts the comment. *)
Definition world_of (f : File) (logs : result str) : World :=
  {| requirements := f;
     logs_archive := logs;
     run_info := inr [7%N];
     comment_post := inr 201%N;
     trace := [] |}.

Definition requests_manifest : File :=
  Present (of_string "requests" ++ [nl]) true true.

(** The same world with a forge that cannot be reached. *)
Definition world_offline (f : File) (logs : result str) : World :=
  {| requirements := f;
     logs_archive := logs;
     run_info := inl ConnectionError;
     comment_post := inl ConnectionError;
     trace := [] |}.

(** The manifest of the end-to-end scenario after the patch. *)
Definition patched_manifest : str :=
  of_string "requests" ++ [nl; nl] ++ of_string "yaml" ++ [nl].

(** A manifest that lists one dependency twice. *)
Definition duplicated_manifest : str :=
  of_string "flask" ++ [nl] ++ of_string "flask" ++ [nl].

(** A dependency name that ends with a line break. *)
Definition name_with_break : str := of_string "x" ++ [nl].

(** A dependency name that ends with a carriage return, as a log with
    the line ends of another platform gives it. *)
Definition name_with_return : str := of_string "x" ++ [cr].

(** ** Start-up and log retrieval *)

(** The comment requests among some events. *)
Fixpoint comments (t : list Event) : list (N * str) :=
  match t with
  | [] => []
  | PostComment pr_number body :: t' => (pr_number, body) :: comments t'
  | _ :: t' => comments t'
  end.

(** What a whole invocation can end with: the [KeyError] of a missing
    key, which carries the key, or one of the exceptions above. *)
Inductive failure : Type :=
| KeyError (key : str)
| Raised (e : exn).

Definition outcome (A : Type) : Type := (failure + A)%type.

#[export] Instance outcome_monad : Monad outcome := {
  ret := fun A (a : A) => inr a;
  bind := fun A B (c : outcome A) (k : A -> outcome B) =>
            match c with
            | inl f => inl f
            | inr a => k a
            end
}.

(** [os.environ] *)
Definition environ : Type := str -> option str.

(** [os.environ[key]] *)
Definition getitem (env : environ) (key : str) : outcome str :=
  match env key with
  | Some value => inr value
  | None => inl (KeyError key)
  end.

Definition GITHUB_TOKEN : str := of_string "GITHUB_TOKEN".
Definition REPO : str := of_string "REPO".
Definition RUN_ID : str := of_string "RUN_ID".

Record GitHubTool : Type := {
  token : str;
  repo : str;
  run_id : str;
  headers : list (str * str)
}.

(** [GitHubTool.__init__] *)
Definition GitHubTool_init (env : environ) : outcome GitHubTool :=
  token <- getitem env GITHUB_TOKEN ;;
  repo <- getitem env REPO ;;
  run_id <- getitem env RUN_ID ;;
  ret {| token := token;
         repo := repo;
         run_id := run_id;
         headers :=
           [(of_string "Authorization", of_string "Bearer " ++ token);
            (of_string "Accept", of_string "application/vnd.github+json")] |}.

(** [CIFixAgent.__init__]; the filesystem tool has no state. *)
Record CIFixAgent : Type := { github : GitHubTool }.

Definition CIFixAgent_init (env : environ) : outcome CIFixAgent :=
  github <- GitHubTool_init env ;;
  ret {| github := github |}.

(** The entry point: build the agent, then run it. *)
Definition main (env : environ) (w : World) : outcome unit * World :=
  match CIFixAgent_init env with
  | inl f => (inl f, w)
  | inr _ =>
      match run w with
      | (inl e, w') => (inl (Raised e), w')
      | (inr u, w') => (inr u, w')
      end
  end.

(** A member of the archive: its name and what reading it gives, the
    content after [decode("utf-8", errors="ignore")], which cannot fail,
    or the exception of the reader (a wrong checksum, an encrypted or an
    unsupported member). *)
Definition member : Type := (str * result str)%type.

(** A member that reads. *)
Definition intact (m : str * str) : member := (fst m, inr (snd m)).

(** The answer to the log request: a status code and what [ZipFile]
    makes of the body, [BadZipFile] or the members in archive order. *)
Record Response : Type := {
  status_code : N;
  archive : result (list member)
}.

(** [response.raise_for_status()] *)
Definition raise_for_status (response : Response) : result unit :=
  if ((400 <=? status_code response) && (status_code response <? 600))%N
  then inl HTTPError
  else inr tt.

(** [zip_file.namelist()]: every member, in order, duplicates included. *)
Definition namelist (zip_file : list member) : list str :=
  map fst zip_file.

(** The name table of [ZipFile]: a later member replaces an earlier one
    of the same name. *)
Fixpoint NameToInfo (zip_file : list member) (name : str)
  : option (result str) :=
  match zip_file with
  | [] => None
  | (n, data) :: rest =>
      match NameToInfo rest name with
      | Some later => Some later
      | None => if list_eq_dec N.eq_dec n name then Some data else None
      end
  end.

(** [zip_file.read(name)], decoded. *)
Definition zip_read (zip_file : list member) (name : str) : outcome str :=
  match NameToInfo zip_file name with
  | Some (inr data) => inr data
  | Some (inl e) => inl (Raised e)
  | None => inl (KeyError name)
  end.

(** The loop of [get_ci_logs]: [logs += zip_file.read(name).decode(...)]. *)
Fixpoint read_members (zip_file : list member) (names : list str)
  (logs : str) : outcome str :=
  match names with
  | [] => inr logs
  | name :: names' =>
      data <- zip_read zip_file name ;;
      read_members zip_file names' (logs ++ data)
  end.

(** [GitHubTool.get_ci_logs], from the answer of [requests.get]. *)
Definition fetch_logs (answer : result Response) : outcome str :=
  match answer with
  | inl e => inl (Raised e)
  | inr response =>
      match raise_for_status response with
      | inl e => inl (Raised e)
      | inr _ =>
          match archive response with
          | inl e => inl (Raised e)
          | inr zip_file => read_members zip_file (namelist zip_file) []
          end
      end
  end.

(** The quote character [']. *)
Definition apostrophe : char := 39%N.

(** ** Facts about the string operations *)

Section StringFacts.

Lemma startswith_nil (s : str) : startswith s [] = true.
Proof. destruct s; reflexivity. Qed.

Lemma startswith_app (sub r : str) : startswith (sub ++ r) sub = true.
Proof.
  induction sub as [|a sub IH]; simpl.
  - apply startswith_nil.
  - now rewrite N.eqb_refl, IH.
Qed.

Lemma startswith_inv (s sub : str) :
  startswith s sub = true -> exists r, s = sub ++ r.
Proof.
  revert s; induction sub as [|a sub IH]; intros s H.
  - now exists s.
  - destruct s as [|b s]; simpl in H; [discriminate|].
    apply andb_true_iff in H as [Hab Hs].
    apply N.eqb_eq in Hab; subst b.
    destruct (IH _ Hs) as [r ->].
    now exists r.
Qed.

Lemma startswith_length (s sub : str) :
  startswith s sub = true -> length sub <= length s.
Proof.
  intros H; destruct (startswith_inv _ _ H) as [r ->].
  rewrite length_app; lia.
Qed.

Lemma startswith_nil_l (sub : str) :
  startswith [] sub = true -> sub = [].
Proof. destruct sub; [reflexivity | discriminate]. Qed.

(** A prefix of [a ++ b] that is at least as long as [a] starts with [a]. *)
Lemma startswith_short (a b sep : str) :
  startswith (a ++ b) sep = true -> length a <= length sep ->
  startswith sep a = true.
Proof.
  revert sep; induction a as [|x a IH]; intros sep H Hlen.
  - apply startswith_nil.
  - destruct sep as [|y sep]; simpl in Hlen; [lia|].
    simpl in H |- *.
    apply andb_true_iff in H as [Hxy Hs].
    apply N.eqb_eq in Hxy; subst y.
    rewrite N.eqb_refl; simpl.
    apply IH; [assumption | lia].
Qed.

Lemma find_eq (s sub : str) :
  find s sub =
  if startswith s sub then Some 0
  else match s with
       | [] => None
       | _ :: s' => option_map S (find s' sub)
       end.
Proof. destruct s; reflexivity. Qed.

Lemma find_Some (s sub : str) (i : nat) :
  find s sub = Some i ->
  occurs_at s sub i /\ forall j, j < i -> startswith (skipn j s) sub = false.
Proof.
  unfold occurs_at.
  revert i; induction s as [|c s IH]; intros i H; rewrite find_eq in H.
  - destruct (startswith [] sub) eqn:E; [|discriminate].
    injection H as <-. split; [assumption | intros j Hj; lia].
  - destruct (startswith (c :: s) sub) eqn:E.
    + injection H as <-. split; [assumption | intros j Hj; lia].
    + destruct (find s sub) as [k|] eqn:F; [|discriminate].
      injection H as <-.
      destruct (IH k eq_refl) as [Hk Hmin].
      split; [exact Hk|].
      intros [|j] Hj; [exact E|].
      simpl. apply Hmin; lia.
Qed.

Lemma find_None (s sub : str) :
  find s sub = None -> forall j, startswith (skipn j s) sub = false.
Proof.
  induction s as [|c s IH]; intros H j; rewrite find_eq in H.
  - destruct (startswith [] sub) eqn:E; [discriminate|].
    now destruct j.
  - destruct (startswith (c :: s) sub) eqn:E; [discriminate|].
    destruct (find s sub) eqn:F; [discriminate|].
    destruct j as [|j]; [exact E|].
    simpl. now apply IH.
Qed.

Lemma find_occurrence (s sub : str) (j : nat) :
  occurs_at s sub j -> exists i, find s sub = Some i /\ i <= j.
Proof.
  unfold occurs_at; intros H.
  destruct (find s sub) as [i|] eqn:F.
  - exists i; split; [reflexivity|].
    destruct (find_Some _ _ _ F) as [_ Hmin].
    destruct (le_lt_dec i j) as [|Hlt]; [assumption|].
    rewrite (Hmin j Hlt) in H; discriminate.
  - rewrite (find_None _ _ F j) in H; discriminate.
Qed.

Lemma contains_true (s sub : str) :
  contains s sub = true <-> exists j, occurs_at s sub j.
Proof.
  unfold contains; split.
  - destruct (find s sub) as [i|] eqn:F; [|discriminate].
    intros _. exists i. now apply find_Some.
  - intros [j Hj].
    destruct (find_occurrence _ _ _ Hj) as [i [-> _]]. reflexivity.
Qed.

Lemma contains_false (s sub : str) :
  contains s sub = false <-> find s sub = None.
Proof.
  unfold contains; destruct (find s sub); split; congruence.
Qed.

Lemma skipn_length_app {A : Type} (a b : list A) :
  skipn (length a) (a ++ b) = b.
Proof. induction a as [|x a IH]; [reflexivity | exact IH]. Qed.

Lemma skipn_plus_app (k : nat) (a b : str) :
  skipn (k + length a) (a ++ b) = skipn k b.
Proof. now rewrite <- skipn_skipn, skipn_length_app. Qed.

Lemma skipn_behind (pre sub r : str) :
  skipn (length pre + length sub) (pre ++ sub ++ r) = r.
Proof.
  rewrite Nat.add_comm, skipn_plus_app. apply skipn_length_app.
Qed.

Lemma skipn_S_tl (k : nat) (s : str) : skipn (S k) s = skipn k (tl s).
Proof. destruct s; [now rewrite !skipn_nil | reflexivity]. Qed.

Lemma occurs_at_app (pre sub r : str) :
  occurs_at (pre ++ sub ++ r) sub (length pre).
Proof.
  unfold occurs_at.
  induction pre as [|c pre IH]; simpl.
  - apply startswith_app.
  - exact IH.
Qed.

Lemma contains_app (pre sub r : str) :
  contains (pre ++ sub ++ r) sub = true.
Proof. apply contains_true. eexists. apply occurs_at_app. Qed.

Lemma occurs_at_bound (s sub : str) (i : nat) :
  sub <> [] -> occurs_at s sub i -> i + length sub <= length s.
Proof.
  unfold occurs_at; intros Hne H.
  apply startswith_length in H.
  rewrite length_skipn in H.
  destruct sub as [|a sub]; [congruence|]. simpl in *.
  lia.
Qed.

Lemma occurs_at_inv (s sub : str) (i : nat) :
  sub <> [] -> occurs_at s sub i ->
  s = firstn i s ++ sub ++ skipn (i + length sub) s /\ length (firstn i s) = i.
Proof.
  intros Hne H.
  pose proof (occurs_at_bound _ _ _ Hne H) as Hb.
  unfold occurs_at in H.
  destruct (startswith_inv _ _ H) as [r Hr].
  split.
  - rewrite Nat.add_comm, <- skipn_skipn, Hr.
    rewrite skipn_app, skipn_all, Nat.sub_diag. simpl.
    rewrite <- Hr. symmetry; apply firstn_skipn.
  - apply firstn_length_le. lia.
Qed.

End StringFacts.

(** ** Facts about [split] *)

Section SplitFacts.

Lemma split_loop_S (n : nat) (s sep : str) :
  split_loop (S n) s sep =
  match find s sep with
  | None => [s]
  | Some i => firstn i s :: split_loop n (skipn (i + length sep) s) sep
  end.
Proof. reflexivity. Qed.

Lemma split_loop_None (n : nat) (s sep : str) :
  find s sep = None -> split_loop n s sep = [s].
Proof. intros H; destruct n; simpl; now rewrite H. Qed.

Lemma split_loop_nonempty (n : nat) (s sep : str) :
  split_loop n s sep <> [].
Proof.
  destruct n; simpl; destruct (find s sep); discriminate.
Qed.

Lemma last_item_cons {A : Type} (x : A) (l : list A) :
  l <> [] -> last_item (x :: l) = last_item l.
Proof. destruct l; [congruence | reflexivity]. Qed.

Lemma borderlessb_correct (sep : str) :
  borderlessb sep = true -> borderless sep.
Proof.
  unfold borderlessb, borderless; intros H j Hj.
  rewrite forallb_forall in H.
  apply negb_true_iff, H, in_seq. lia.
Qed.

(** Two occurrences of a borderless separator are at least its length
    apart. *)
Lemma borderless_apart (s sep : str) (i p : nat) :
  borderless sep -> occurs_at s sep i -> occurs_at s sep p -> i < p ->
  i + length sep <= p.
Proof.
  unfold occurs_at; intros Hb Hi Hp Hlt.
  destruct (le_lt_dec (i + length sep) p) as [|Hov]; [assumption|].
  exfalso.
  destruct (startswith_inv _ _ Hi) as [r Hr].
  replace p with ((p - i) + i) in Hp by lia.
  rewrite <- skipn_skipn, Hr, skipn_app in Hp.
  apply startswith_short in Hp.
  - rewrite (Hb (p - i)) in Hp; [discriminate | lia].
  - rewrite length_skipn; lia.
Qed.

(** For a borderless separator the last piece of the split is the text
    behind the last occurrence. *)
Lemma split_loop_last (n : nat) :
  forall (s sep : str) (p : nat),
    sep <> [] -> borderless sep -> length s <= n ->
    occurs_at s sep p ->
    (forall q, p < q -> startswith (skipn q s) sep = false) ->
    last_item (split_loop n s sep) = inr (skipn (p + length sep) s).
Proof.
  induction n as [|n IH]; intros s sep p Hne Hb Hlen Hp Hlast.
  - destruct s; [|simpl in Hlen; lia].
    unfold occurs_at in Hp. rewrite skipn_nil in Hp.
    apply startswith_nil_l in Hp. contradiction.
  - assert (Hlen_sep : 0 < length sep) by (destruct sep; [congruence | simpl; lia]).
    rewrite split_loop_S.
    destruct (find_occurrence _ _ _ Hp) as [i [Hfind Hip]].
    rewrite Hfind.
    rewrite last_item_cons by apply split_loop_nonempty.
    destruct (find_Some _ _ _ Hfind) as [Hi _].
    destruct (Nat.eq_dec i p) as [->|Hneq].
    + rewrite split_loop_None; [reflexivity|].
      destruct (find (skipn (p + length sep) s) sep) as [k|] eqn:F;
        [exfalso | reflexivity].
      apply find_Some in F as [Hk _]. unfold occurs_at in Hk.
      rewrite skipn_skipn in Hk.
      rewrite Hlast in Hk; [discriminate | lia].
    + assert (Hap : i + length sep <= p)
        by (apply (borderless_apart s); [assumption.. | lia]).
      replace (p + length sep)
        with ((p - (i + length sep) + length sep) + (i + length sep)) by lia.
      rewrite <- (skipn_skipn (p - (i + length sep) + length sep)
                              (i + length sep) s).
      apply IH; try assumption.
      * rewrite length_skipn; lia.
      * unfold occurs_at. rewrite skipn_skipn.
        replace (p - (i + length sep) + (i + length sep)) with p by lia.
        exact Hp.
      * intros q Hq. rewrite skipn_skipn. apply Hlast. lia.
Qed.

(** Every text that holds the separator has a last occurrence of it. *)
Lemma last_occurrence (s sep : str) :
  sep <> [] -> (exists j, occurs_at s sep j) ->
  exists p, occurs_at s sep p
            /\ forall q, p < q -> startswith (skipn q s) sep = false.
Proof.
  intros Hne; induction s as [|c s IH]; intros [j Hj].
  - unfold occurs_at in Hj. rewrite skipn_nil in Hj.
    apply startswith_nil_l in Hj. contradiction.
  - destruct (find s sep) as [k|] eqn:F.
    + destruct IH as [p [Hp Hlast]].
      { exists k. now apply find_Some. }
      exists (S p); split; [exact Hp|].
      intros [|q] Hq; [lia|]. simpl. apply Hlast; lia.
    + exists 0; split.
      * destruct j as [|j]; [exact Hj|].
        unfold occurs_at in Hj; simpl in Hj.
        rewrite (find_None _ _ F j) in Hj; discriminate.
      * intros [|q] Hq; [lia|]. simpl. now apply find_None.
Qed.

Lemma No_module_named_borderless : borderless No_module_named.
Proof. apply borderlessb_correct. vm_compute. reflexivity. Qed.

Lemma No_module_named_nonempty : No_module_named <> [].
Proof. discriminate. Qed.

End SplitFacts.

(** ** Facts about [strip] *)

Section StripFacts.

Variable p : char -> bool.

Lemma lstrip_by_head (s : str) (c : char) (rest : str) :
  lstrip_by p s = c :: rest -> p c = false.
Proof.
  induction s as [|x s IH]; simpl; [discriminate|].
  destruct (p x) eqn:E; [exact IH|].
  intros H; injection H as -> _. exact E.
Qed.

Lemma lstrip_by_suffix (s : str) :
  exists a, s = a ++ lstrip_by p s.
Proof.
  induction s as [|x s [a IH]]; simpl.
  - now exists [].
  - destruct (p x).
    + exists (x :: a). simpl. now rewrite <- IH.
    + now exists [].
Qed.

Lemma rstrip_by_prefix (s : str) :
  exists a, s = rstrip_by p s ++ a.
Proof.
  unfold rstrip_by.
  destruct (lstrip_by_suffix (rev s)) as [a Ha].
  exists (rev a).
  rewrite <- rev_app_distr, <- Ha. symmetry; apply rev_involutive.
Qed.

Lemma strip_by_edges (s : str) : edge_in p (strip_by p s) = false.
Proof.
  unfold edge_in, strip_by.
  apply orb_false_iff; split.
  - destruct (rstrip_by p (lstrip_by p s)) as [|c rest] eqn:E; [reflexivity|].
    destruct (rstrip_by_prefix (lstrip_by p s)) as [a Ha].
    rewrite E in Ha. simpl in Ha.
    now apply lstrip_by_head in Ha.
  - unfold rstrip_by. rewrite rev_involutive.
    destruct (lstrip_by p (rev (lstrip_by p s))) as [|c rest] eqn:E;
      [reflexivity|].
    now apply lstrip_by_head in E.
Qed.

End StripFacts.

(** ** The diagnosis engine *)

Section Diagnose.

Lemma split_No_module_named (logs : str) :
  split logs No_module_named
  = inr (split_loop (length logs) logs No_module_named).
Proof. reflexivity. Qed.

Lemma diagnose_no_marker (logs : str) :
  contains logs ModuleNotFoundError = false -> diagnose logs = inr Unknown.
Proof. unfold diagnose; now intros ->. Qed.

Lemma diagnose_marker (logs piece : str) :
  contains logs ModuleNotFoundError = true ->
  last_item (split_loop (length logs) logs No_module_named) = inr piece ->
  diagnose logs = inr (MissingDependency (strip_chars (strip piece) quotes)).
Proof.
  unfold diagnose; intros -> H.
  rewrite split_No_module_named. simpl. now rewrite H.
Qed.

(** With the gate word present, the name is cut from the text behind the
    last [No module named]. *)
Lemma diagnose_behind (logs : str) (p : nat) :
  contains logs ModuleNotFoundError = true ->
  occurs_at logs No_module_named p ->
  (forall q, p < q -> startswith (skipn q logs) No_module_named = false) ->
  diagnose logs =
  inr (MissingDependency
         (strip_chars (strip (skipn (p + length No_module_named) logs)) quotes)).
Proof.
  intros Hgate Hp Hlast.
  apply diagnose_marker; [assumption|].
  apply split_loop_last; auto using No_module_named_borderless,
    No_module_named_nonempty.
Qed.

(** The same, for a text given in three parts. *)
Lemma diagnose_parts (pre tail : str) :
  contains (pre ++ No_module_named ++ tail) ModuleNotFoundError = true ->
  find (tl (No_module_named ++ tail)) No_module_named = None ->
  diagnose (pre ++ No_module_named ++ tail)
  = inr (MissingDependency (strip_chars (strip tail) quotes)).
Proof.
  intros Hgate Hnone.
  rewrite (diagnose_behind _ (length pre) Hgate).
  - now rewrite skipn_behind.
  - apply occurs_at_app.
  - intros q Hq.
    replace q with (S (q - S (length pre)) + length pre) by lia.
    rewrite skipn_plus_app, skipn_S_tl.
    now apply find_None.
Qed.

End Diagnose.

Section DiagnoseClaims.

Lemma last_item_total {A : Type} (l : list A) :
  l <> [] -> exists x, last_item l = inr x.
Proof.
  induction l as [|x l IH]; [congruence|]; intros _.
  destruct l as [|y l]; [now exists x|].
  apply IH; discriminate.
Qed.

Lemma diagnose_cases (logs : str) (d : Diagnosis) :
  diagnose logs = inr d ->
  d = Unknown
  \/ exists piece, d = MissingDependency (strip_chars (strip piece) quotes).
Proof.
  unfold diagnose.
  destruct (contains logs ModuleNotFoundError).
  - rewrite split_No_module_named. simpl.
    destruct (last_item _) as [e|piece]; [discriminate|].
    intros H; injection H as <-. right. now exists piece.
  - intros H; injection H as <-. now left.
Qed.

(** C1, as the code has it: for every log text that contains
    [ModuleNotFoundError], [diagnose] returns [MissingDependency] whose
    name is cut from the text that follows the last occurrence of
    [No module named] up to the end of the log (from the whole log when
    there is no occurrence): surrounding whitespace is removed, then
    every leading and trailing quote character. *)
Theorem diagnose_missing_dependency (logs : str) :
  contains logs ModuleNotFoundError = true ->
  exists tail,
    diagnose logs = inr (MissingDependency (strip_chars (strip tail) quotes))
    /\ ((contains logs No_module_named = false /\ tail = logs)
        \/ exists pre,
             logs = pre ++ No_module_named ++ tail
             /\ forall pre' tail',
                  logs = pre' ++ No_module_named ++ tail' ->
                  length pre' <= length pre).
Proof.
  intros Hgate.
  destruct (contains logs No_module_named) eqn:E.
  - apply contains_true in E.
    destruct (last_occurrence _ _ No_module_named_nonempty E)
      as [p [Hp Hlast]].
    exists (skipn (p + length No_module_named) logs).
    split; [now apply diagnose_behind|].
    right. exists (firstn p logs).
    destruct (occurs_at_inv _ _ _ No_module_named_nonempty Hp) as [Heq Hlen].
    split; [exact Heq|].
    intros pre' tail' Heq'. rewrite Hlen.
    destruct (le_lt_dec (length pre') p) as [|Hlt]; [assumption|].
    pose proof (occurs_at_app pre' No_module_named tail') as Hocc.
    rewrite <- Heq' in Hocc. unfold occurs_at in Hocc.
    rewrite (Hlast _ Hlt) in Hocc. discriminate.
  - exists logs. split; [|now left].
    apply diagnose_marker; [assumption|].
    apply contains_false in E. now rewrite split_loop_None.
Qed.

Lemma diagnose_missing_dependency_witness :
  contains yaml_message ModuleNotFoundError = true
  /\ exists tail,
       diagnose yaml_message
       = inr (MissingDependency (strip_chars (strip tail) quotes))
       /\ ((contains yaml_message No_module_named = false
            /\ tail = yaml_message)
           \/ exists pre,
                yaml_message = pre ++ No_module_named ++ tail
                /\ forall pre' tail',
                     yaml_message = pre' ++ No_module_named ++ tail' ->
                     length pre' <= length pre).
Proof.
  split; [reflexivity|].
  apply (diagnose_missing_dependency yaml_message). reflexivity.
Defined.

(** C1 as stated fails: the name is not cut at the end of the line, so
    a log that continues after the import error yields a name with the
    closing quote, a line break and the next line, whichever of the two
    marker words the statement is read with. *)
Lemma diagnose_same_line_counterexample :
  contains log_with_trailer ModuleNotFoundError = true
  /\ diagnose log_with_trailer
     = inr (MissingDependency
              (of_string "yaml'" ++ [nl]
               ++ of_string "Error: Process completed with exit code 1."))
  /\ spec_diagnose No_module_named log_with_trailer = MissingDependency yaml
  /\ diagnose log_with_trailer
     <> inr (spec_diagnose No_module_named log_with_trailer)
  /\ diagnose log_with_trailer
     <> inr (spec_diagnose ModuleNotFoundError log_with_trailer).
Proof.
  repeat split; try reflexivity; vm_compute; intros H; discriminate H.
Qed.

(** C2, as the code has it: the name of a [MissingDependency] neither
    begins nor ends with a quote character. *)
Theorem diagnose_name_unquoted (logs name : str) :
  diagnose logs = inr (MissingDependency name) ->
  edge_in is_quote name = false.
Proof.
  intros H. apply diagnose_cases in H as [H | [piece H]]; [discriminate|].
  injection H as ->. apply strip_by_edges.
Qed.

Lemma diagnose_name_unquoted_witness : edge_in is_quote yaml = false.
Proof.
  apply (diagnose_name_unquoted yaml_message yaml). reflexivity.
Defined.

(** C2 as stated fails: an empty pair of quotes gives the empty name,
    and whitespace inside the quotes stays around the name. *)
Lemma diagnose_name_invariant_counterexample :
  diagnose log_empty_name = inr (MissingDependency [])
  /\ ~ name_invariant []
  /\ diagnose log_padded_name = inr (MissingDependency (of_string " yaml "))
  /\ ~ name_invariant (of_string " yaml ").
Proof.
  repeat split; try reflexivity.
  - intros [H _]. now apply H.
  - intros [_ [_ H]]. vm_compute in H. discriminate H.
Qed.

(** C6: [diagnose] never raises, and for every log text without
    [ModuleNotFoundError], the empty text included, it returns
    [Unknown]. *)
Theorem diagnose_unknown (logs : str) :
  (exists d, diagnose logs = inr d)
  /\ (contains logs ModuleNotFoundError = false ->
      diagnose logs = inr Unknown).
Proof.
  split; [|apply diagnose_no_marker].
  destruct (contains logs ModuleNotFoundError) eqn:E.
  - destruct (last_item_total
                (split_loop (length logs) logs No_module_named)
                (split_loop_nonempty _ _ _)) as [piece Hp].
    eexists. now apply diagnose_marker with (piece := piece).
  - exists Unknown. now apply diagnose_no_marker.
Qed.

Lemma diagnose_unknown_witness :
  contains [] ModuleNotFoundError = false /\ diagnose [] = inr Unknown.
Proof.
  split; [reflexivity|].
  apply (proj2 (diagnose_unknown [])). reflexivity.
Defined.

(** C10: for every log text that contains [ModuleNotFoundError] but not
    [No module named], [diagnose] returns [MissingDependency] with the
    whole log, stripped of surrounding whitespace and then of leading and
    trailing quote characters, as the name. *)
Theorem diagnose_whole_log (logs : str) :
  contains logs ModuleNotFoundError = true ->
  contains logs No_module_named = false ->
  diagnose logs = inr (MissingDependency (strip_chars (strip logs) quotes)).
Proof.
  intros Hgate Hnone.
  apply diagnose_marker; [assumption|].
  apply contains_false in Hnone. now rewrite split_loop_None.
Qed.

Lemma diagnose_whole_log_witness :
  contains log_gate_only ModuleNotFoundError = true
  /\ contains log_gate_only No_module_named = false
  /\ diagnose log_gate_only
     = inr (MissingDependency
              (of_string "ModuleNotFoundError" ++ [nl]
               ++ of_string "'build' failed")).
Proof.
  split; [reflexivity|]. split; [reflexivity|].
  apply (diagnose_whole_log log_gate_only); reflexivity.
Defined.

End DiagnoseClaims.

(** ** The effectful operations, case by case *)

Ltac exec :=
  unfold add_dependency, post_pr_comment, read_text, write_text,
    get_ci_logs, print, emit, ask, lift, raise;
  cbn [bind ret M_monad result_monad requirements logs_archive run_info
       comment_post trace with_trace with_requirements].

Ltac fields :=
  cbn [requirements logs_archive run_info comment_post trace with_trace
       with_requirements].

(** ** Facts about text files *)

Section TextFacts.

Lemma universal_newlines_cons (c : char) (rest : str) :
  universal_newlines (c :: rest) =
  if (c =? cr)%N then
    nl :: match rest with
          | [] => []
          | d :: rest' =>
              if (d =? nl)%N then universal_newlines rest'
              else universal_newlines rest
          end
  else c :: universal_newlines rest.
Proof. reflexivity. Qed.

(** What holds of the empty text, of a line feed in front of a text
    that has it, and of any other character than the carriage return in
    front of such a text, holds of every translated text. *)
Lemma universal_newlines_ind (P : str -> Prop) :
  P [] ->
  (forall t, P t -> P (nl :: t)) ->
  (forall c t, (c =? cr)%N = false -> P t -> P (c :: t)) ->
  forall s, P (universal_newlines s).
Proof.
  intros Hnil Hnl Hcons s.
  enough (H : P (universal_newlines s)
              /\ forall c, P (universal_newlines (c :: s))) by apply H.
  induction s as [|d s [IHs IHc]].
  - split; [exact Hnil|].
    intros c. rewrite universal_newlines_cons.
    destruct (c =? cr)%N eqn:E; [apply Hnl | apply Hcons]; auto.
  - split; [apply IHc|].
    intros c. rewrite universal_newlines_cons.
    destruct (c =? cr)%N eqn:E.
    + apply Hnl. destruct (d =? nl)%N; [exact IHs | apply IHc].
    + apply Hcons; [exact E | apply IHc].
Qed.

(** No carriage return is left after the translation. *)
Lemma universal_newlines_clean (s : str) :
  mem (universal_newlines s) cr = false.
Proof.
  apply universal_newlines_ind; unfold mem; cbn [existsb].
  - reflexivity.
  - intros t ->. reflexivity.
  - intros c t E ->. now rewrite N.eqb_sym, E.
Qed.

Lemma universal_newlines_surrogate (s : str) :
  has_surrogate s = false -> has_surrogate (universal_newlines s) = false.
Proof.
  intros H.
  enough (G : has_surrogate (universal_newlines s) = false
              /\ forall c, is_surrogate c = false ->
                           has_surrogate (universal_newlines (c :: s)) = false)
    by apply G.
  induction s as [|d s IH].
  - split; [reflexivity|].
    intros c Hc. rewrite universal_newlines_cons.
    destruct (c =? cr)%N; unfold has_surrogate; cbn [existsb];
      [reflexivity | now rewrite Hc].
  - unfold has_surrogate in H; cbn [existsb] in H.
    apply orb_false_iff in H as [Hd Hs].
    destruct (IH Hs) as [IHs IHc].
    split; [now apply IHc|].
    intros c Hc. rewrite universal_newlines_cons.
    destruct (c =? cr)%N.
    + unfold has_surrogate; cbn [existsb].
      change (is_surrogate nl) with false. cbn [orb].
      destruct (d =? nl)%N; [exact IHs | now apply IHc].
    + unfold has_surrogate; cbn [existsb]. rewrite Hc. cbn [orb].
      now apply IHc.
Qed.

(** A text without carriage return reads as it is, also in front of
    another text. *)
Lemma universal_newlines_app (a b : str) :
  mem a cr = false ->
  universal_newlines (a ++ b) = a ++ universal_newlines b.
Proof.
  induction a as [|c a IH]; [reflexivity|].
  unfold mem; cbn [existsb]. intros H.
  apply orb_false_iff in H as [Hc Ha].
  change ((c :: a) ++ b) with (c :: a ++ b).
  rewrite universal_newlines_cons, N.eqb_sym, Hc.
  now rewrite (IH Ha).
Qed.

Lemma universal_newlines_id (s : str) :
  mem s cr = false -> universal_newlines s = s.
Proof.
  intros H. rewrite <- (app_nil_r s) at 1.
  rewrite universal_newlines_app by assumption.
  apply app_nil_r.
Qed.

Lemma mem_app (a b : str) (c : char) :
  mem (a ++ b) c = mem a c || mem b c.
Proof. apply existsb_app. Qed.

Lemma has_surrogate_app (a b : str) :
  has_surrogate (a ++ b) = has_surrogate a || has_surrogate b.
Proof. apply existsb_app. Qed.

(** The data the patcher writes, once read: the content it had read,
    then the translated line of the name. *)
Lemma universal_newlines_patch (c name : str) :
  universal_newlines (universal_newlines c ++ [nl] ++ name ++ [nl])
  = universal_newlines c ++ nl :: universal_newlines (name ++ [nl]).
Proof.
  rewrite universal_newlines_app by apply universal_newlines_clean.
  reflexivity.
Qed.

Lemma has_surrogate_patch (c name : str) :
  has_surrogate c = false ->
  has_surrogate (universal_newlines c ++ [nl] ++ name ++ [nl])
  = has_surrogate name.
Proof.
  intros H.
  rewrite !has_surrogate_app, (universal_newlines_surrogate c H).
  unfold has_surrogate at 1 3; cbn [existsb].
  change (is_surrogate nl) with false.
  now rewrite !orb_false_r.
Qed.

End TextFacts.

(** ** The effectful operations, case by case *)

Section Effects.

Lemma add_dependency_eq (dep : str) (w : World) :
  add_dependency dep w =
  match requirements w with
  | Absent =>
      (inl FileNotFoundError, with_trace (trace w ++ [ReadText]) w)
  | Present _ false _ =>
      (inl PermissionError, with_trace (trace w ++ [ReadText]) w)
  | Present c true wr =>
      if has_surrogate c then
        (inl UnicodeDecodeError, with_trace (trace w ++ [ReadText]) w)
      else
        let data := universal_newlines c ++ [nl] ++ dep ++ [nl] in
        if contains (universal_newlines c) dep then
          (inr tt, with_trace (trace w ++ [ReadText]) w)
        else if wr then
          if has_surrogate data then
            (inl UnicodeEncodeError,
             with_requirements (Present [] true true)
               (with_trace (trace w ++ [ReadText; WriteText data]) w))
          else
            (inr tt,
             with_requirements (Present data true true)
               (with_trace (trace w ++ [ReadText; WriteText data]) w))
        else
          (inl PermissionError,
           with_trace (trace w ++ [ReadText; WriteText data]) w)
  end.
Proof.
  exec.
  destruct (requirements w) as [|c [|] wr] eqn:R; try reflexivity.
  destruct (has_surrogate c); [reflexivity|].
  destruct (contains (universal_newlines c) dep); cbn [negb];
    [reflexivity|].
  exec. rewrite R. unfold written.
  destruct wr;
    [destruct (has_surrogate (universal_newlines c ++ [nl] ++ dep ++ [nl]))|];
    unfold with_trace, with_requirements;
    cbn [fst snd requirements logs_archive run_info comment_post trace];
    now rewrite <- app_assoc.
Qed.

Lemma post_pr_comment_eq (body : str) (w : World) :
  post_pr_comment body w =
  match run_info w with
  | inl e =>
      (inl e, with_trace (trace w ++ [SinkCall body; GetRun]) w)
  | inr [] =>
      (inr tt,
       with_trace (trace w ++ [SinkCall body; GetRun; Print no_pr_line]) w)
  | inr (pr_number :: _) =>
      let w' :=
        with_trace
          (trace w ++ [SinkCall body; GetRun; PostComment pr_number body]) w
      in
      match comment_post w with
      | inl e => (inl e, w')
      | inr _ => (inr tt, w')
      end
  end.
Proof.
  exec.
  destruct (run_info w) as [e|[|pr prs]]; exec;
    [| |destruct (comment_post w)];
    unfold with_trace;
    cbn [requirements logs_archive run_info comment_post trace];
    now rewrite <- !app_assoc.
Qed.

Lemma act_MissingDependency (dep : str) (w : World) :
  act (MissingDependency dep) w =
  match add_dependency dep w with
  | (inl e, w1) => (inl e, w1)
  | (inr _, w1) =>
      match post_pr_comment (report dep) w1 with
      | (inl e, w2) => (inl e, w2)
      | (inr _, w2) => print (proposed_fix_line dep) w2
      end
  end.
Proof. reflexivity. Qed.

Lemma run_eq (w : World) :
  run w =
  match logs_archive w with
  | inl e => (inl e, with_trace (trace w ++ [FetchLogs]) w)
  | inr logs =>
      match diagnose logs with
      | inl e => (inl e, with_trace (trace w ++ [FetchLogs]) w)
      | inr d => act d (with_trace (trace w ++ [FetchLogs]) w)
      end
  end.
Proof.
  unfold run. exec.
  destruct (logs_archive w) as [e|logs]; [reflexivity|].
  now destruct (diagnose logs).
Qed.

End Effects.

(** The seven ways of the patch step: no file, no right to read, bytes
    that are no text, the name found, the data written, the data
    rejected by the codec, no right to write. *)
Ltac file_cases w c name wr :=
  rewrite add_dependency_eq;
  destruct (requirements w) as [|c [|] wr] eqn:?R; cbv zeta;
  [ | destruct (has_surrogate c) eqn:?D;
      [ | destruct (contains (universal_newlines c) name) eqn:?E;
          [ | destruct wr;
              [ destruct (has_surrogate
                            (universal_newlines c ++ [nl] ++ name ++ [nl]))
                  eqn:?S | ] ] ]
    | ].

(** ** The remediation dispatcher *)

Section Dispatcher.

(** The patch step touches nothing but the manifest and the trace, and
    neither prints nor reports. *)
Lemma add_dependency_frame (name : str) (w w1 : World) (r : result unit) :
  add_dependency name w = (r, w1) ->
  logs_archive w1 = logs_archive w
  /\ run_info w1 = run_info w
  /\ comment_post w1 = comment_post w
  /\ exists evs, trace w1 = trace w ++ evs
                 /\ sink_calls evs = [] /\ printed evs = [].
Proof.
  file_cases w c name wr;
    intros H; injection H as <- <-; fields;
    repeat split; eexists; repeat split.
Qed.

(** A failing patch step leaves the manifest as it was, but for the
    write that the codec interrupts: that one leaves it empty. *)
Lemma add_dependency_failure (name : str) (w w1 : World) (e : exn) :
  add_dependency name w = (inl e, w1) ->
  requirements w1 = requirements w
  \/ (e = UnicodeEncodeError
      /\ exists c, requirements w = Present c true true
                   /\ requirements w1 = Present [] true true).
Proof.
  file_cases w c name wr;
    intros H; try discriminate H; injection H as <- <-; fields;
    try (left; exact R).
  right. split; [reflexivity|]. now exists c.
Qed.

(** The patch step raises exactly when the manifest is absent,
    unreadable or no text, or lacks the name and is unwritable or would
    get data that the codec rejects. *)
Lemma add_dependency_raises (name : str) (w : World) :
  (exists e w1, add_dependency name w = (inl e, w1))
  <-> (requirements w = Absent
       \/ (exists c wr, requirements w = Present c false wr)
       \/ (exists c wr, requirements w = Present c true wr
                        /\ has_surrogate c = true)
       \/ (exists c wr,
             requirements w = Present c true wr
             /\ has_surrogate c = false
             /\ contains (universal_newlines c) name = false
             /\ (wr = false \/ has_surrogate name = true))).
Proof.
  file_cases w c name wr.
  - split; [now left | intros _; eauto].
  - split; [|intros _; eauto].
    intros _. right; right; left. now exists c, wr.
  - split; [intros (e & w1 & H); discriminate H|].
    intros [H | [(c0 & wr0 & H) | [(c0 & wr0 & H & H')
                                  | (c0 & wr0 & H & H1 & H2 & H3)]]];
      inversion H; subst; congruence.
  - split; [|intros _; eauto].
    intros _. repeat right. exists c, true.
    rewrite <- (has_surrogate_patch c name D). auto.
  - split; [intros (e & w1 & H); discriminate H|].
    rewrite (has_surrogate_patch c name D) in S.
    intros [H | [(c0 & wr0 & H) | [(c0 & wr0 & H & H')
                                  | (c0 & wr0 & H & H1 & H2 & [H3 | H3])]]];
      inversion H; subst; congruence.
  - split; [|intros _; eauto].
    intros _. repeat right. exists c, false. auto.
  - split; [|intros _; eauto].
    intros _. right; left. now exists c, wr.
Qed.

(** The reporting sink leaves the manifest alone, whatever it ends
    with, and its trace begins with the call itself. *)
Lemma post_pr_comment_frame (body : str) (w w2 : World) (r : result unit) :
  post_pr_comment body w = (r, w2) ->
  requirements w2 = requirements w
  /\ exists rest, trace w2 = trace w ++ SinkCall body :: rest
                  /\ sink_calls rest = [] /\ file_writes rest = []
                  /\ (sink_error w = None -> r = inr tt)
                  /\ (forall e, sink_error w = Some e ->
                      r = inl e /\ printed rest = []).
Proof.
  rewrite post_pr_comment_eq. unfold sink_error.
  destruct (run_info w) as [e|[|pr prs]]; cbv zeta;
    [| |destruct (comment_post w)];
    intros H; injection H as <- <-; fields;
    (split; [reflexivity|]); eexists; (split; [reflexivity|]);
    repeat split; intros; repeat split;
    try reflexivity; try discriminate; congruence.
Qed.

(** C9: for the [Unknown] diagnosis [act] returns after one console
    line: the manifest is unchanged, nothing is written and the reporting
    sink is not called. *)
Theorem act_unknown (w : World) :
  exists w' evs,
    act Unknown w = (inr tt, w')
    /\ requirements w' = requirements w
    /\ trace w' = trace w ++ evs
    /\ evs = [Print no_fix_line]
    /\ file_writes evs = []
    /\ sink_calls evs = [].
Proof.
  exists (with_trace (trace w ++ [Print no_fix_line]) w), [Print no_fix_line].
  repeat split.
Qed.

(** C4: when the patch step raises, [act] raises the same exception
    and the reporting sink has not been called; the manifest is as it
    was, or left empty by a write that the codec interrupted; and
    whenever [act] has called the reporting sink, the patch step had
    returned before, so that its events precede the call. *)
Theorem act_patch_before_report (name : str) (w : World) :
  (forall e w1,
      add_dependency name w = (inl e, w1) ->
      act (MissingDependency name) w = (inl e, w1)
      /\ (requirements w1 = requirements w
          \/ (e = UnicodeEncodeError
              /\ exists c, requirements w = Present c true true
                           /\ requirements w1 = Present [] true true))
      /\ exists evs, trace w1 = trace w ++ evs /\ sink_calls evs = [])
  /\ (forall r w' evs,
        act (MissingDependency name) w = (r, w') ->
        trace w' = trace w ++ evs ->
        sink_calls evs <> [] ->
        exists w1 rest,
          add_dependency name w = (inr tt, w1)
          /\ trace w' = trace w1 ++ SinkCall (report name) :: rest
          /\ sink_calls rest = []).
Proof.
  split.
  - intros e w1 Hadd. rewrite act_MissingDependency, Hadd.
    split; [reflexivity|].
    split; [exact (add_dependency_failure _ _ _ _ Hadd)|].
    destruct (add_dependency_frame _ _ _ _ Hadd) as (_ & _ & _ & evs & Ht & Hs & _).
    now exists evs.
  - intros r w' evs Hact Ht Hsink.
    rewrite act_MissingDependency in Hact.
    destruct (add_dependency name w) as [[e|[]] w1] eqn:Hadd.
    + injection Hact as <- <-.
      destruct (add_dependency_frame _ _ _ _ Hadd)
        as (_ & _ & _ & evs1 & Ht1 & Hs1 & _).
      rewrite Ht1 in Ht. apply app_inv_head in Ht. congruence.
    + exists w1.
      destruct (post_pr_comment (report name) w1) as [r2 w2] eqn:Hpost.
      destruct (post_pr_comment_frame _ _ _ _ Hpost)
        as (_ & rest & Ht2 & Hs2 & _).
      destruct r2 as [e|[]].
      * injection Hact as <- <-. exists rest. auto.
      * unfold print, emit in Hact. injection Hact as <- <-. fields.
        exists (rest ++ [Print (proposed_fix_line name)]).
        split; [reflexivity|]. split.
        -- rewrite Ht2, <- app_assoc. reflexivity.
        -- clear - Hs2. induction rest as [|[] rest IH]; simpl in *;
             try discriminate; auto.
Qed.

Lemma act_patch_before_report_witness :
  add_dependency yaml (world_of Absent (inr []))
  = (inl FileNotFoundError, with_trace [ReadText] (world_of Absent (inr [])))
  /\ act (MissingDependency yaml) (world_of Absent (inr []))
     = (inl FileNotFoundError,
        with_trace [ReadText] (world_of Absent (inr [])))
  /\ (requirements (with_trace [ReadText] (world_of Absent (inr [])))
      = requirements (world_of Absent (inr []))
      \/ (FileNotFoundError = UnicodeEncodeError
          /\ exists c,
               requirements (world_of Absent (inr [])) = Present c true true
               /\ requirements
                    (with_trace [ReadText] (world_of Absent (inr [])))
                  = Present [] true true))
  /\ exists evs,
       trace (with_trace [ReadText] (world_of Absent (inr [])))
       = trace (world_of Absent (inr [])) ++ evs
       /\ sink_calls evs = [].
Proof.
  split; [reflexivity|].
  apply (proj1 (act_patch_before_report yaml (world_of Absent (inr [])))
               FileNotFoundError).
  reflexivity.
Defined.

Lemma sink_calls_app (t1 t2 : list Event) :
  sink_calls (t1 ++ t2) = sink_calls t1 ++ sink_calls t2.
Proof.
  induction t1 as [|[] t1 IH]; simpl; auto. now rewrite IH.
Qed.

Lemma file_writes_app (t1 t2 : list Event) :
  file_writes (t1 ++ t2) = file_writes t1 ++ file_writes t2.
Proof.
  induction t1 as [|[] t1 IH]; simpl; auto. now rewrite IH.
Qed.

Lemma printed_app (t1 t2 : list Event) :
  printed (t1 ++ t2) = printed t1 ++ printed t2.
Proof.
  induction t1 as [|[] t1 IH]; simpl; auto. now rewrite IH.
Qed.

(** C7, as the code has it: when the manifest is readable text and the
    name already occurs in it as read, [act] writes nothing, leaves the
    manifest as it is and calls the reporting sink exactly once, with the
    report for that name; when the sink returns, [act] returns too, its
    last event being the console line of the applied fix; when the sink
    raises, [act] ends with that exception and prints nothing. *)
Theorem act_duplicate (name c : str) (wr : bool) (w : World) :
  requirements w = Present c true wr ->
  has_surrogate c = false ->
  contains (universal_newlines c) name = true ->
  exists r w' evs,
    act (MissingDependency name) w = (r, w')
    /\ requirements w' = requirements w
    /\ trace w' = trace w ++ evs
    /\ file_writes evs = []
    /\ sink_calls evs = [report name]
    /\ (sink_error w = None ->
        r = inr tt
        /\ exists front, evs = front ++ [Print (proposed_fix_line name)])
    /\ (forall e, sink_error w = Some e -> r = inl e /\ printed evs = []).
Proof.
  intros R D E.
  rewrite act_MissingDependency, add_dependency_eq, R, D. cbv zeta.
  rewrite E.
  destruct (post_pr_comment (report name)
              (with_trace (trace w ++ [ReadText]) w)) as [r2 w2] eqn:Hpost.
  destruct (post_pr_comment_frame _ _ _ _ Hpost)
    as (Hreq & rest & Ht & Hs & Hw & Hok & Herr).
  change (sink_error (with_trace (trace w ++ [ReadText]) w))
    with (sink_error w) in Hok, Herr.
  revert Hreq Ht; fields; intros Hreq Ht.
  destruct r2 as [e|[]].
  - exists (inl e), w2, (ReadText :: SinkCall (report name) :: rest).
    split; [reflexivity|]. split; [congruence|].
    split; [now rewrite Ht, <- app_assoc|].
    simpl. rewrite Hs, Hw.
    split; [reflexivity|]. split; [reflexivity|]. split.
    + intros Hnone. specialize (Hok Hnone). discriminate Hok.
    + intros e' He'. destruct (Herr e' He') as [Hr Hp].
      now rewrite Hp.
  - exists (inr tt), (with_trace (trace w2 ++ [Print (proposed_fix_line name)]) w2),
      (ReadText :: SinkCall (report name) :: rest
       ++ [Print (proposed_fix_line name)]).
    split; [reflexivity|]. fields. split; [congruence|].
    split; [now rewrite Ht, <- !app_assoc|].
    simpl. rewrite file_writes_app, sink_calls_app, Hs, Hw.
    split; [reflexivity|]. split; [reflexivity|]. split.
    + intros _. split; [reflexivity|].
      now exists (ReadText :: SinkCall (report name) :: rest).
    + intros e' He'. destruct (Herr e' He') as [Hr _]. discriminate Hr.
Qed.

Lemma act_duplicate_witness :
  requirements (world_of (Present flask true false) (inr []))
  = Present flask true false
  /\ has_surrogate flask = false
  /\ contains (universal_newlines flask) flask = true
  /\ exists r w' evs,
       act (MissingDependency flask) (world_of (Present flask true false) (inr []))
       = (r, w')
       /\ requirements w'
          = requirements (world_of (Present flask true false) (inr []))
       /\ trace w'
          = trace (world_of (Present flask true false) (inr [])) ++ evs
       /\ file_writes evs = []
       /\ sink_calls evs = [report flask]
       /\ (sink_error (world_of (Present flask true false) (inr [])) = None ->
           r = inr tt
           /\ exists front, evs = front ++ [Print (proposed_fix_line flask)])
       /\ (forall e,
             sink_error (world_of (Present flask true false) (inr []))
             = Some e ->
             r = inl e /\ printed evs = []).
Proof.
  split; [reflexivity|]. split; [reflexivity|]. split; [reflexivity|].
  apply (act_duplicate flask flask false
           (world_of (Present flask true false) (inr []))); reflexivity.
Defined.

(** C7 as stated fails: with the name in the manifest and the forge out
    of reach, the report is handed to the sink and nothing is written,
    but [act] ends with the exception of the request and does not reach
    its last line. *)
Lemma act_duplicate_counterexample :
  contains (universal_newlines flask) flask = true
  /\ fst (act (MissingDependency flask)
            (world_offline (Present flask true true) (inr [])))
     = inl ConnectionError
  /\ sink_calls
       (trace (snd (act (MissingDependency flask)
                      (world_offline (Present flask true true) (inr [])))))
     = [report flask]
  /\ file_writes
       (trace (snd (act (MissingDependency flask)
                      (world_offline (Present flask true true) (inr [])))))
     = []
  /\ printed
       (trace (snd (act (MissingDependency flask)
                      (world_offline (Present flask true true) (inr [])))))
     = [].
Proof. repeat split. Qed.

(** C3, as the code has it: once the patch step has returned, an
    exception of the reporting sink leaves [act] as that exception,
    with no console line, and the manifest stays as the patch step left
    it; a run without pull request makes [act] return after the notice
    and the line of the applied fix; and a comment request that is
    answered, with whatever status, makes [act] return without notice. *)
Theorem act_report_failure (name : str) (w w1 : World) :
  add_dependency name w = (inr tt, w1) ->
  (forall e,
      sink_error w = Some e ->
      exists w' evs,
        act (MissingDependency name) w = (inl e, w')
        /\ requirements w' = requirements w1
        /\ trace w' = trace w1 ++ evs
        /\ printed evs = [])
  /\ (run_info w = inr [] ->
      exists w',
        act (MissingDependency name) w = (inr tt, w')
        /\ requirements w' = requirements w1
        /\ trace w' = trace w1 ++ [SinkCall (report name); GetRun;
                                   Print no_pr_line;
                                   Print (proposed_fix_line name)])
  /\ (forall pr prs status,
        run_info w = inr (pr :: prs) ->
        comment_post w = inr status ->
        exists w',
          act (MissingDependency name) w = (inr tt, w')
          /\ requirements w' = requirements w1
          /\ trace w' = trace w1 ++ [SinkCall (report name); GetRun;
                                     PostComment pr (report name);
                                     Print (proposed_fix_line name)]).
Proof.
  intros Hadd.
  destruct (add_dependency_frame _ _ _ _ Hadd) as (_ & Hrun & Hpost & _).
  rewrite act_MissingDependency, Hadd, post_pr_comment_eq, Hrun, Hpost.
  unfold sink_error. cbv zeta.
  repeat split.
  - intros e He.
    destruct (run_info w) as [e0|[|pr prs]];
      [| discriminate He | destruct (comment_post w) as [e0|st];
                           [|discriminate He]];
      injection He as ->;
      eexists; eexists; (split; [reflexivity|]); fields; repeat split.
  - intros ->. eexists. split; [reflexivity|]. fields.
    split; [reflexivity|]. now rewrite <- app_assoc.
  - intros pr prs status -> ->. eexists. split; [reflexivity|]. fields.
    split; [reflexivity|]. now rewrite <- app_assoc.
Qed.

Lemma act_report_failure_witness :
  add_dependency yaml (world_offline requests_manifest (inr []))
  = (inr tt,
     with_requirements (Present patched_manifest true true)
       (with_trace [ReadText; WriteText patched_manifest]
          (world_offline requests_manifest (inr []))))
  /\ sink_error (world_offline requests_manifest (inr []))
     = Some ConnectionError
  /\ exists w' evs,
       act (MissingDependency yaml) (world_offline requests_manifest (inr []))
       = (inl ConnectionError, w')
       /\ requirements w' = Present patched_manifest true true
       /\ trace w' = [ReadText; WriteText patched_manifest] ++ evs
       /\ printed evs = [].
Proof.
  split; [reflexivity|]. split; [reflexivity|].
  apply (proj1 (act_report_failure yaml
                  (world_offline requests_manifest (inr []))
                  (with_requirements (Present patched_manifest true true)
                     (with_trace [ReadText; WriteText patched_manifest]
                        (world_offline requests_manifest (inr []))))
                  eq_refl)
               ConnectionError).
  reflexivity.
Defined.

(** C3 as stated fails: with the forge out of reach the invocation
    ends with the exception of the request, nothing is printed, and the
    patched manifest stays. *)
Lemma act_report_failure_counterexample :
  fst (run (world_offline requests_manifest (inr yaml_message)))
  = inl ConnectionError
  /\ fst (act (MissingDependency yaml)
            (world_offline requests_manifest (inr yaml_message)))
     = inl ConnectionError
  /\ printed (trace (snd (run (world_offline requests_manifest
                                 (inr yaml_message))))) = []
  /\ requirements (snd (run (world_offline requests_manifest
                               (inr yaml_message))))
     = Present patched_manifest true true.
Proof. repeat split. Qed.

Lemma diagnose_yaml_message (pre : str) :
  diagnose (pre ++ yaml_message) = inr (MissingDependency yaml).
Proof.
  change yaml_message
    with (of_string "ModuleNotFoundError: "
          ++ No_module_named ++ of_string " 'yaml'").
  rewrite app_assoc.
  rewrite diagnose_parts; [reflexivity | | reflexivity].
  rewrite <- app_assoc.
  exact (contains_app pre ModuleNotFoundError
           (of_string ": " ++ No_module_named ++ of_string " 'yaml'")).
Qed.

(** C8: with the manifest [requests] and a log that ends with the
    interpreter message for [yaml], on a run that belongs to a pull
    request and a forge that answers the comment request, [run] returns,
    the manifest has become the two lines [requests] and [yaml] with a
    blank line between them, and the comment sent to the pull request is
    the report, which names [`yaml`]. *)
Theorem run_end_to_end (pre : str) (pr status : N) (prs : list N) (w : World) :
  requirements w = requests_manifest ->
  logs_archive w = inr (pre ++ yaml_message) ->
  run_info w = inr (pr :: prs) ->
  comment_post w = inr status ->
  exists w',
    run w = (inr tt, w')
    /\ requirements w' = Present patched_manifest true true
    /\ trace w' = trace w ++ [FetchLogs; ReadText; WriteText patched_manifest;
                              SinkCall (report yaml); GetRun;
                              PostComment pr (report yaml);
                              Print (proposed_fix_line yaml)]
    /\ contains (report yaml) (of_string "`yaml`") = true.
Proof.
  intros Hreq Hlogs Hrun Hpost.
  rewrite run_eq, Hlogs, diagnose_yaml_message.
  rewrite act_MissingDependency, add_dependency_eq. fields.
  rewrite Hreq. unfold requests_manifest. cbv zeta.
  change (has_surrogate (of_string "requests" ++ [nl])) with false.
  change (universal_newlines (of_string "requests" ++ [nl]))
    with (of_string "requests" ++ [nl]).
  change (contains (of_string "requests" ++ [nl]) yaml) with false.
  change (has_surrogate ((of_string "requests" ++ [nl]) ++ [nl] ++ yaml
                         ++ [nl])) with false.
  cbv iota.
  rewrite post_pr_comment_eq. fields. rewrite Hrun, Hpost. cbv zeta.
  eexists. split; [reflexivity|]. fields.
  split; [reflexivity|]. split; [|reflexivity].
  now rewrite <- !app_assoc.
Qed.

Lemma run_end_to_end_witness :
  requirements (world_of requests_manifest (inr yaml_message))
  = requests_manifest
  /\ logs_archive (world_of requests_manifest (inr yaml_message))
     = inr ([] ++ yaml_message)
  /\ exists w',
       run (world_of requests_manifest (inr yaml_message)) = (inr tt, w')
       /\ requirements w' = Present patched_manifest true true
       /\ trace w'
          = trace (world_of requests_manifest (inr yaml_message))
            ++ [FetchLogs; ReadText; WriteText patched_manifest;
                SinkCall (report yaml); GetRun;
                PostComment 7 (report yaml);
                Print (proposed_fix_line yaml)]
       /\ contains (report yaml) (of_string "`yaml`") = true.
Proof.
  split; [reflexivity|]. split; [reflexivity|].
  apply (run_end_to_end [] 7 201 []
           (world_of requests_manifest (inr yaml_message))); reflexivity.
Defined.

End Dispatcher.

(** ** The manifest patcher, called twice *)

Section Patcher.

Lemma occurrences_eq (s sub : str) :
  occurrences s sub =
  (if startswith s sub then 1 else 0)
  + match s with
    | [] => 0
    | _ :: s' => occurrences s' sub
    end.
Proof. destruct s; reflexivity. Qed.

Lemma occurrences_zero (s sub : str) :
  occurrences s sub = 0 <-> find s sub = None.
Proof.
  induction s as [|c s IH]; rewrite find_eq, occurrences_eq.
  - destruct (startswith [] sub); split; intros H;
      try reflexivity; try discriminate H; lia.
  - destruct (startswith (c :: s) sub).
    + split; intros H; try discriminate H; lia.
    + rewrite Nat.add_0_l, IH.
      destruct (find s sub); simpl; split; congruence.
Qed.

Lemma occurrences_short (s sub : str) :
  length s < length sub -> occurrences s sub = 0.
Proof.
  intros Hlen. apply occurrences_zero.
  destruct (find s sub) as [i|] eqn:F; [exfalso | reflexivity].
  apply find_Some in F as [Hi _].
  apply startswith_length in Hi. rewrite length_skipn in Hi. lia.
Qed.

Lemma occurrences_self (c : char) (sub : str) :
  occurrences (c :: sub) (c :: sub) = 1.
Proof.
  change (occurrences (c :: sub) (c :: sub))
    with ((if startswith (c :: sub) (c :: sub) then 1 else 0)
          + occurrences sub (c :: sub)).
  rewrite occurrences_short by (simpl; lia).
  rewrite <- (app_nil_r (c :: sub)) at 1.
  now rewrite startswith_app.
Qed.

(** A text without line break begins at a line break exactly when it is
    empty, and otherwise matches only inside a line. *)
Lemma startswith_app_nl (sub a b : str) :
  mem sub nl = false ->
  startswith (a ++ nl :: b) sub = startswith a sub.
Proof.
  revert sub; induction a as [|x a IH]; intros [|y sub] Hnl;
    try reflexivity;
    unfold mem in Hnl; cbn [existsb] in Hnl;
    apply orb_false_iff in Hnl as [Hy Hsub];
    cbn [app startswith].
  - now rewrite N.eqb_sym, Hy.
  - now rewrite <- (IH sub Hsub).
Qed.

Lemma occurrences_app_nl (sub a b : str) :
  mem sub nl = false ->
  occurrences (a ++ nl :: b) sub = occurrences a sub + occurrences b sub.
Proof.
  intros Hnl; induction a as [|x a IH].
  - change (occurrences ([] ++ nl :: b) sub)
      with ((if startswith ([] ++ nl :: b) sub then 1 else 0)
            + occurrences b sub).
    rewrite startswith_app_nl by assumption. simpl. lia.
  - change (occurrences ((x :: a) ++ nl :: b) sub)
      with ((if startswith ((x :: a) ++ nl :: b) sub then 1 else 0)
            + occurrences (a ++ nl :: b) sub).
    rewrite startswith_app_nl, IH by assumption. simpl. lia.
Qed.

Lemma occurrences_appended (c name : str) :
  mem name nl = false -> occurrences c name = 0 ->
  occurrences (c ++ [nl] ++ name ++ [nl]) name = 1.
Proof.
  intros Hnl Hzero.
  change (c ++ [nl] ++ name ++ [nl]) with (c ++ nl :: name ++ [nl]).
  rewrite !occurrences_app_nl, Hzero by assumption.
  destruct name as [|x name].
  - destruct c; discriminate Hzero.
  - rewrite occurrences_self. reflexivity.
Qed.

Lemma contains_appended (c name : str) :
  contains (c ++ [nl] ++ name ++ [nl]) name = true.
Proof.
  rewrite app_assoc. apply contains_app.
Qed.

Lemma contains_nil (s : str) : contains s [] = true.
Proof. unfold contains. now rewrite find_eq, startswith_nil. Qed.

Lemma startswith_app_l (u v sub : str) :
  startswith u sub = true -> startswith (u ++ v) sub = true.
Proof.
  intros H. destruct (startswith_inv _ _ H) as [r ->].
  rewrite <- app_assoc. apply startswith_app.
Qed.

Lemma contains_app_l (a b sub : str) :
  contains a sub = true -> contains (a ++ b) sub = true.
Proof.
  rewrite !contains_true. intros [j Hj]. exists j.
  unfold occurs_at in *. rewrite skipn_app. now apply startswith_app_l.
Qed.

Lemma contains_app_r (a b sub : str) :
  contains b sub = true -> contains (a ++ b) sub = true.
Proof.
  rewrite !contains_true. intros [j Hj]. exists (j + length a).
  unfold occurs_at in *. now rewrite skipn_plus_app.
Qed.

(** Beyond the length of the text, more fuel changes nothing. *)
Lemma split_loop_fuel (n : nat) :
  forall (m : nat) (s sep : str),
    sep <> [] -> length s <= n -> length s <= m ->
    split_loop n s sep = split_loop m s sep.
Proof.
  induction n as [|n IH]; intros m s sep Hne Hn Hm.
  - destruct s; [|simpl in Hn; lia].
    assert (F : find [] sep = None)
      by (destruct sep; [congruence | reflexivity]).
    now rewrite !split_loop_None.
  - destruct (find s sep) as [i|] eqn:F.
    + pose proof (find_Some _ _ _ F) as [Hi _].
      pose proof (occurs_at_bound _ _ _ Hne Hi) as Hb.
      assert (0 < length sep) by (destruct sep; [congruence | simpl; lia]).
      destruct m as [|m]; [lia|].
      rewrite !split_loop_S, F. f_equal.
      apply IH; auto; rewrite length_skipn; lia.
    + now rewrite !split_loop_None.
Qed.

Lemma entries_nil : entries [] = [[]].
Proof. reflexivity. Qed.

Lemma entries_cons (c : char) (s : str) :
  entries (c :: s) =
  if (nl =? c)%N then [] :: entries s
  else match entries s with
       | [] => [[c]]
       | first :: others => (c :: first) :: others
       end.
Proof.
  unfold entries. cbn [length]. rewrite split_loop_S, find_eq.
  cbn [startswith]. rewrite startswith_nil, andb_true_r.
  destruct (nl =? c)%N; [reflexivity|].
  destruct (find s [nl]) as [i|] eqn:F; cbn [option_map].
  - pose proof (find_Some _ _ _ F) as [Hi _].
    assert (Hne : [nl] <> []) by discriminate.
    pose proof (occurs_at_bound _ _ _ Hne Hi) as Hb. simpl in Hb.
    destruct (length s) as [|m] eqn:L; [lia|].
    rewrite (split_loop_S m s [nl]), F. cbn [firstn]. f_equal.
    change (skipn (S i + length [nl]) (c :: s))
      with (skipn (i + length [nl]) s).
    apply split_loop_fuel; auto; rewrite length_skipn; simpl; lia.
  - now rewrite split_loop_None.
Qed.

Lemma entries_nonempty (s : str) : entries s <> [].
Proof. apply split_loop_nonempty. Qed.

(** A line break between two texts joins their lines. *)
Lemma entries_app (a b : str) :
  entries (a ++ nl :: b) = entries a ++ entries b.
Proof.
  induction a as [|c a IH].
  - simpl app. rewrite entries_cons, N.eqb_refl. reflexivity.
  - change ((c :: a) ++ nl :: b) with (c :: a ++ nl :: b).
    rewrite !entries_cons, IH.
    destruct (nl =? c)%N; [reflexivity|].
    pose proof (entries_nonempty a).
    destruct (entries a); [congruence | reflexivity].
Qed.

Lemma entries_one_line (s : str) : mem s nl = false -> entries s = [s].
Proof.
  intros H. apply split_loop_None.
  induction s as [|c s IH]; [reflexivity|].
  unfold mem in H; cbn [existsb] in H.
  apply orb_false_iff in H as [Hc Hs].
  rewrite find_eq. cbn [startswith]. rewrite Hc. cbn [andb].
  now rewrite IH.
Qed.


(** The first line of a text is a prefix of it, and every line is part
    of it. *)
Lemma entries_first_prefix (s first : str) (others : list str) :
  entries s = first :: others -> exists rest, s = first ++ rest.
Proof.
  revert first others; induction s as [|c s IH]; intros first others.
  - rewrite entries_nil. intros H; injection H as <- _. now exists [].
  - rewrite entries_cons.
    destruct (nl =? c)%N.
    + intros H; injection H as <- _. now exists (c :: s).
    + destruct (entries s) as [|f o] eqn:E.
      * intros H; injection H as <- _. now exists s.
      * intros H; injection H as <- _.
        destruct (IH f o eq_refl) as [rest ->]. now exists rest.
Qed.

Lemma entries_substring (s line : str) :
  In line (entries s) -> contains s line = true.
Proof.
  revert line; induction s as [|c s IH]; intros line.
  - rewrite entries_nil. intros [<- | []]. reflexivity.
  - rewrite entries_cons.
    destruct (nl =? c)%N.
    + intros [<- | H]; [apply contains_nil|].
      apply (contains_app_r [c]). now apply IH.
    + destruct (entries s) as [|f o] eqn:E.
      * exfalso. exact (entries_nonempty s E).
      * intros [<- | H].
        -- destruct (entries_first_prefix s f o E) as [rest ->].
           apply (contains_app [] (c :: f) rest).
        -- apply (contains_app_r [c]). apply IH. now right.
Qed.

Lemma entry_count_absent (s name : str) :
  contains s name = false -> entry_count s name = 0.
Proof.
  intros H. unfold entry_count. apply count_occ_not_In.
  intros Hin. apply entries_substring in Hin. congruence.
Qed.

(** The name, once appended, is one more line. *)
Lemma entry_count_appended (c name : str) :
  mem name nl = false -> contains c name = false ->
  entry_count (c ++ [nl] ++ name ++ [nl]) name = 1.
Proof.
  intros Hnl E. unfold entry_count.
  change (c ++ [nl] ++ name ++ [nl]) with (c ++ nl :: name ++ nl :: []).
  rewrite !entries_app, (entries_one_line name Hnl), entries_nil.
  rewrite count_occ_app.
  change (entry_count c name
          + count_occ (list_eq_dec N.eq_dec) ([name] ++ [[]]) name = 1).
  rewrite (entry_count_absent c name E).
  cbn [app].
  rewrite count_occ_cons_eq by reflexivity.
  rewrite count_occ_cons_neq; [reflexivity|].
  intros <-. rewrite contains_nil in E. discriminate E.
Qed.

(** The written data has no carriage return when the name has none, and
    so reads as written. *)
Lemma patch_reads_back (c name : str) :
  mem name cr = false ->
  universal_newlines (universal_newlines c ++ [nl] ++ name ++ [nl])
  = universal_newlines c ++ [nl] ++ name ++ [nl].
Proof.
  intros H. apply universal_newlines_id.
  rewrite !mem_app, universal_newlines_clean, H. reflexivity.
Qed.

(** C5, as the code has it: on a readable and writable text manifest,
    for a name without carriage return that the codec can encode, two
    calls in succession both return, the second one reads the file and
    writes nothing, and the file is the initial content or the content
    as read with the name appended once as a line of its own.  When the
    name has no line feed either: if it occurred at most once in the
    content as read, it occurs exactly once in the end; and as to the
    lines, they are as before when the name was found in the content, and
    otherwise the name is exactly one of them. *)
Theorem add_dependency_twice (name c : str) (w : World) :
  requirements w = Present c true true ->
  has_surrogate c = false ->
  has_surrogate name = false ->
  mem name cr = false ->
  exists w1 w2 c',
    add_dependency name w = (inr tt, w1)
    /\ add_dependency name w1 = (inr tt, w2)
    /\ requirements w1 = Present c' true true
    /\ requirements w2 = requirements w1
    /\ trace w2 = trace w1 ++ [ReadText]
    /\ (c' = c \/ c' = universal_newlines c ++ [nl] ++ name ++ [nl])
    /\ (mem name nl = false ->
        occurrences (universal_newlines c) name <= 1 ->
        occurrences (universal_newlines c') name = 1)
    /\ (mem name nl = false ->
        entry_count (universal_newlines c') name
        = if contains (universal_newlines c) name
          then entry_count (universal_newlines c) name
          else 1).
Proof.
  intros R D Dn Hcr.
  destruct (contains (universal_newlines c) name) eqn:E.
  - exists (with_trace (trace w ++ [ReadText]) w),
      (with_trace ((trace w ++ [ReadText]) ++ [ReadText]) w), c.
    rewrite !add_dependency_eq. fields. rewrite R, D. cbv zeta. rewrite E.
    repeat split; auto.
    intros _ Hle.
    assert (occurrences (universal_newlines c) name <> 0); [|lia].
    rewrite occurrences_zero, <- contains_false. congruence.
  - pose proof (has_surrogate_patch c name D) as S. rewrite Dn in S.
    pose proof (patch_reads_back c name Hcr) as Hback.
    exists (with_requirements
              (Present (universal_newlines c ++ [nl] ++ name ++ [nl])
                 true true)
              (with_trace
                 (trace w ++ [ReadText;
                              WriteText (universal_newlines c ++ [nl]
                                         ++ name ++ [nl])]) w)).
    eexists. exists (universal_newlines c ++ [nl] ++ name ++ [nl]).
    rewrite !add_dependency_eq. fields. rewrite R, D. cbv zeta.
    rewrite E, S, Hback, contains_appended.
    repeat split; auto.
    + intros Hnl _. apply occurrences_appended; [assumption|].
      apply occurrences_zero. now apply contains_false.
    + intros Hnl. now apply entry_count_appended.
Qed.

Lemma add_dependency_twice_witness :
  requirements (world_of requests_manifest (inr []))
  = Present (of_string "requests" ++ [nl]) true true
  /\ exists w1 w2 c',
       add_dependency yaml (world_of requests_manifest (inr [])) = (inr tt, w1)
       /\ add_dependency yaml w1 = (inr tt, w2)
       /\ requirements w1 = Present c' true true
       /\ requirements w2 = requirements w1
       /\ trace w2 = trace w1 ++ [ReadText]
       /\ (c' = of_string "requests" ++ [nl]
           \/ c' = universal_newlines (of_string "requests" ++ [nl])
                   ++ [nl] ++ yaml ++ [nl])
       /\ (mem yaml nl = false ->
           occurrences (universal_newlines (of_string "requests" ++ [nl]))
             yaml <= 1 ->
           occurrences (universal_newlines c') yaml = 1)
       /\ (mem yaml nl = false ->
           entry_count (universal_newlines c') yaml
           = if contains (universal_newlines (of_string "requests" ++ [nl]))
                  yaml
             then entry_count
                    (universal_newlines (of_string "requests" ++ [nl])) yaml
             else 1).
Proof.
  split; [reflexivity|].
  apply (add_dependency_twice yaml (of_string "requests" ++ [nl])
           (world_of requests_manifest (inr []))); reflexivity.
Defined.

(** C5 as stated fails: a name the manifest lists twice is still listed
    twice after the two calls; a name that ends with a line break is
    found twice in the file that the first call writes; and a name that
    ends with a carriage return is not found in the file as read back, so
    that the second call writes again. *)
Lemma add_dependency_twice_counterexample :
  requirements
    (snd (add_dependency flask
            (snd (add_dependency flask
                    (world_of (Present duplicated_manifest true true)
                       (inr []))))))
  = Present duplicated_manifest true true
  /\ occurrences duplicated_manifest flask = 2
  /\ entry_count duplicated_manifest flask = 2
  /\ requirements
       (snd (add_dependency name_with_break
               (snd (add_dependency name_with_break
                       (world_of (Present (of_string "x") true true)
                          (inr []))))))
     = Present (of_string "x" ++ [nl] ++ name_with_break ++ [nl]) true true
  /\ occurrences (of_string "x" ++ [nl] ++ name_with_break ++ [nl])
       name_with_break = 2
  /\ file_writes
       (trace (snd (add_dependency name_with_return
                      (snd (add_dependency name_with_return
                              (world_of requests_manifest (inr [])))))))
     = [of_string "requests" ++ [nl; nl] ++ name_with_return ++ [nl];
        of_string "requests" ++ [nl; nl] ++ of_string "x" ++ [nl; nl]
        ++ name_with_return ++ [nl]].
Proof. repeat split. Qed.

End Patcher.
(** ** Further properties of the diagnosis engine *)

Section StripExact.

Variable p : char -> bool.

Lemma lstrip_by_all (a s : str) :
  forallb p a = true -> lstrip_by p (a ++ s) = lstrip_by p s.
Proof.
  induction a as [|x a IH]; simpl; [reflexivity|].
  intros H. apply andb_true_iff in H as [Hx Ha].
  rewrite Hx. now apply IH.
Qed.

Lemma lstrip_by_keep (c : char) (s : str) :
  p c = false -> lstrip_by p (c :: s) = c :: s.
Proof. simpl. now intros ->. Qed.

Lemma forallb_rev (a : str) : forallb p (rev a) = forallb p a.
Proof.
  induction a as [|x a IH]; [reflexivity|]. simpl.
  rewrite forallb_app, IH. simpl. rewrite andb_true_r. apply andb_comm.
Qed.

Lemma rstrip_by_all (s b : str) :
  forallb p b = true -> rstrip_by p (s ++ b) = rstrip_by p s.
Proof.
  intros Hb. unfold rstrip_by.
  rewrite rev_app_distr, lstrip_by_all; [reflexivity|].
  now rewrite forallb_rev.
Qed.

(** Stripping removes exactly the surrounding characters of the class
    when the core neither begins nor ends with one. *)
Lemma strip_by_exact (a s b : str) :
  forallb p a = true -> forallb p b = true -> edge_in p s = false ->
  strip_by p (a ++ s ++ b) = s.
Proof.
  intros Ha Hb He. unfold strip_by.
  rewrite lstrip_by_all by assumption.
  unfold edge_in in He. apply orb_false_iff in He as [Hhd Hlast].
  destruct s as [|c s].
  - simpl app. rewrite <- (app_nil_r b), lstrip_by_all by assumption.
    reflexivity.
  - change ((c :: s) ++ b) with (c :: s ++ b).
    rewrite lstrip_by_keep by assumption.
    change (c :: s ++ b) with ((c :: s) ++ b).
    rewrite rstrip_by_all by assumption.
    unfold rstrip_by.
    destruct (rev (c :: s)) as [|d t] eqn:R.
    + apply (f_equal (@length char)) in R.
      rewrite length_rev in R. discriminate R.
    + rewrite lstrip_by_keep by assumption.
      now rewrite <- R, rev_involutive.
Qed.

End StripExact.

Section DiagnoseMore.

Lemma is_quote_cases (q : char) :
  is_quote q = true -> q = 39%N \/ q = 34%N.
Proof.
  unfold is_quote, mem, quotes; cbn [existsb].
  rewrite !orb_true_iff, !N.eqb_eq. intros [H | [H | H]]; auto.
  discriminate H.
Qed.

(** Without the separator in the text behind it, the occurrence in front
    is the last one. *)
Lemma find_behind_None (sep tail : str) :
  sep <> [] -> borderless sep -> contains tail sep = false ->
  find (tl (sep ++ tail)) sep = None.
Proof.
  intros Hne Hb Hnone.
  destruct (find (tl (sep ++ tail)) sep) as [k|] eqn:F; [exfalso|reflexivity].
  apply find_Some in F as [Hk _]. unfold occurs_at in Hk.
  rewrite <- skipn_S_tl in Hk.
  assert (Hap : 0 + length sep <= S k).
  { apply (borderless_apart (sep ++ tail)); try assumption; [|lia].
    apply startswith_app. }
  replace (S k) with ((S k - length sep) + length sep) in Hk by lia.
  rewrite skipn_plus_app in Hk.
  assert (Hc : contains tail sep = true)
    by (apply contains_true; eexists; exact Hk).
  congruence.
Qed.

(** A separator that lacks the character [x] matches in [a ++ x :: b]
    only where it matches in [a]. *)
Lemma startswith_app_sep (x : char) (sub a b : str) :
  mem sub x = false ->
  startswith (a ++ x :: b) sub = startswith a sub.
Proof.
  revert sub; induction a as [|y a IH]; intros [|z sub] Hx;
    try reflexivity;
    unfold mem in Hx; cbn [existsb] in Hx;
    apply orb_false_iff in Hx as [Hz Hsub];
    cbn [app startswith].
  - now rewrite N.eqb_sym, Hz.
  - now rewrite <- (IH sub Hsub).
Qed.

Lemma find_app_sep (x : char) (sub a b : str) :
  mem sub x = false ->
  find a sub = None -> find b sub = None ->
  find (a ++ x :: b) sub = None.
Proof.
  intros Hx Ha Hb.
  induction a as [|y a IH].
  - rewrite find_eq. simpl app.
    change (x :: b) with ([] ++ x :: b) at 1.
    rewrite startswith_app_sep by assumption.
    rewrite find_eq in Ha.
    destruct (startswith [] sub); [discriminate Ha|].
    now rewrite Hb.
  - rewrite find_eq in Ha. rewrite find_eq.
    change ((y :: a) ++ x :: b) with (y :: a ++ x :: b).
    change (y :: a ++ x :: b) with ((y :: a) ++ x :: b) at 1.
    rewrite startswith_app_sep by assumption.
    destruct (startswith (y :: a) sub); [discriminate Ha|].
    destruct (find a sub); [discriminate Ha|].
    now rewrite IH.
Qed.

(** A text of one character class holds no separator that begins
    outside the class. *)
Lemma find_in_class (p : char -> bool) (c : char) (sub ws : str) :
  p c = false -> forallb p ws = true -> find ws (c :: sub) = None.
Proof.
  intros Hc; induction ws as [|y ws IH]; intros Hws; [reflexivity|].
  simpl in Hws. apply andb_true_iff in Hws as [Hy Hws].
  rewrite find_eq. cbn [startswith].
  destruct (N.eqb_spec c y) as [->|_]; [congruence|].
  cbn [andb]. now rewrite IH.
Qed.

End DiagnoseMore.

Section DiagnoseRoundTrip.

Lemma quote_not_space (q : char) : is_quote q = true -> isspace q = false.
Proof. intros H; destruct (is_quote_cases q H) as [-> | ->]; reflexivity. Qed.

Lemma quote_not_in_separator (q : char) :
  is_quote q = true -> mem No_module_named q = false.
Proof. intros H; destruct (is_quote_cases q H) as [-> | ->]; reflexivity. Qed.

Lemma edge_in_quoted (p : char -> bool) (q1 q2 : char) (m : str) :
  p q1 = false -> p q2 = false -> edge_in p (q1 :: m ++ [q2]) = false.
Proof.
  intros H1 H2. unfold edge_in. rewrite H1.
  change (q1 :: m ++ [q2]) with ((q1 :: m) ++ [q2]).
  rewrite rev_app_distr. simpl. now rewrite H2.
Qed.

(** The interpreter message round trip: whatever precedes the message,
    whichever quote characters enclose the module name and whatever
    whitespace ends the log, [diagnose] returns the name between the
    quotes, provided the name neither begins nor ends with a quote
    character and does not hold the words [No module named]. *)
Theorem diagnose_quoted_name (pre m ws : str) (q1 q2 : char) :
  is_quote q1 = true ->
  is_quote q2 = true ->
  forallb isspace ws = true ->
  edge_in is_quote m = false ->
  contains m No_module_named = false ->
  diagnose (pre ++ of_string "ModuleNotFoundError: No module named "
            ++ q1 :: m ++ q2 :: ws)
  = inr (MissingDependency m).
Proof.
  intros Hq1 Hq2 Hws Hm Hnone.
  assert (Hshape :
    pre ++ of_string "ModuleNotFoundError: No module named "
    ++ q1 :: m ++ q2 :: ws
    = (pre ++ ModuleNotFoundError ++ of_string ": ")
      ++ No_module_named ++ [32%N] ++ (q1 :: m ++ [q2]) ++ ws).
  { change (of_string "ModuleNotFoundError: No module named ")
      with (ModuleNotFoundError ++ of_string ": " ++ No_module_named
            ++ [32%N]).
    rewrite <- !app_assoc. simpl. now rewrite <- !app_assoc. }
  rewrite Hshape, diagnose_parts.
  - do 2 f_equal.
    unfold strip. rewrite strip_by_exact;
      [ | reflexivity | assumption
        | apply edge_in_quoted; now apply quote_not_space ].
    unfold strip_chars.
    change (q1 :: m ++ [q2]) with ([q1] ++ m ++ [q2]).
    apply strip_by_exact; [ | | exact Hm]; cbn [forallb];
      [change (mem quotes q1) with (is_quote q1); now rewrite Hq1
      |change (mem quotes q2) with (is_quote q2); now rewrite Hq2].
  - rewrite <- !app_assoc. apply contains_app.
  - apply find_behind_None;
      [exact No_module_named_nonempty | exact No_module_named_borderless |].
    apply contains_false.
    change ([32%N] ++ (q1 :: m ++ [q2]) ++ ws)
      with ([32%N] ++ q1 :: (m ++ [q2]) ++ ws).
    apply find_app_sep;
      [now apply quote_not_in_separator | reflexivity |].
    rewrite <- app_assoc. simpl.
    apply find_app_sep;
      [now apply quote_not_in_separator | now apply contains_false |].
    change No_module_named with (78%N :: of_string "o module named").
    now apply find_in_class with (p := isspace).
Qed.

Lemma diagnose_quoted_name_witness :
  diagnose (of_string "Traceback" ++ [nl]
            ++ of_string "ModuleNotFoundError: No module named "
            ++ 34%N :: of_string "requests" ++ 34%N :: [nl])
  = inr (MissingDependency (of_string "requests")).
Proof.
  apply (diagnose_quoted_name (of_string "Traceback" ++ [nl])
           (of_string "requests") [nl] 34%N 34%N); reflexivity.
Defined.

End DiagnoseRoundTrip.

(** ** Further properties of the manifest patcher *)

Section PatcherMore.

(** The two ways in which the patch step returns. *)
Lemma add_dependency_ok (name : str) (w w1 : World) :
  add_dependency name w = (inr tt, w1) ->
  exists c wr,
    requirements w = Present c true wr
    /\ has_surrogate c = false
    /\ ((contains (universal_newlines c) name = true
         /\ requirements w1 = Present c true wr)
        \/ (contains (universal_newlines c) name = false
            /\ wr = true
            /\ has_surrogate name = false
            /\ requirements w1
               = Present (universal_newlines c ++ [nl] ++ name ++ [nl])
                   true true)).
Proof.
  file_cases w c name wr;
    intros H; try discriminate H; injection H as <-; fields;
    exists c; eexists; (split; [reflexivity|]); (split; [assumption|]);
    auto.
  right. rewrite (has_surrogate_patch c name D) in S. auto.
Qed.

(** Whenever the patch step returns, the permissions of the manifest
    are as before and the manifest as read begins with what was read
    before, so that whatever text was found in it is still found; and a
    name without carriage return is found in it. *)
Theorem add_dependency_returns (name : str) (w w1 : World) :
  add_dependency name w = (inr tt, w1) ->
  exists c c1 wr added,
    requirements w = Present c true wr
    /\ requirements w1 = Present c1 true wr
    /\ universal_newlines c1 = universal_newlines c ++ added
    /\ (forall other,
          contains (universal_newlines c) other = true ->
          contains (universal_newlines c1) other = true)
    /\ (mem name cr = false ->
        contains (universal_newlines c1) name = true).
Proof.
  intros H.
  destruct (add_dependency_ok _ _ _ H)
    as (c & wr & R & D & [[E R1] | (E & -> & Dn & R1)]).
  - exists c, c, wr, []. rewrite app_nil_r. auto.
  - exists c, (universal_newlines c ++ [nl] ++ name ++ [nl]), true,
      (nl :: universal_newlines (name ++ [nl])).
    rewrite universal_newlines_patch.
    repeat split; auto using contains_app_l.
    intros Hcr.
    rewrite <- universal_newlines_patch, (patch_reads_back c name Hcr).
    apply contains_appended.
Qed.

Lemma add_dependency_returns_witness :
  exists c c1 wr added,
    requirements (world_of (Present (of_string "requests" ++ [cr; nl])
                              true true) (inr []))
    = Present c true wr
    /\ requirements
         (snd (add_dependency yaml
                 (world_of (Present (of_string "requests" ++ [cr; nl])
                              true true) (inr []))))
       = Present c1 true wr
    /\ universal_newlines c1 = universal_newlines c ++ added
    /\ (forall other,
          contains (universal_newlines c) other = true ->
          contains (universal_newlines c1) other = true)
    /\ (mem yaml cr = false ->
        contains (universal_newlines c1) yaml = true).
Proof.
  apply (add_dependency_returns yaml
           (world_of (Present (of_string "requests" ++ [cr; nl]) true true)
              (inr []))).
  reflexivity.
Defined.

(** Two patch steps for two names without carriage return compose:
    when both return, the manifest as read begins with what was read at
    first and holds both names. *)
Theorem add_dependency_both (a b : str) (w w1 w2 : World) :
  add_dependency a w = (inr tt, w1) ->
  add_dependency b w1 = (inr tt, w2) ->
  mem a cr = false ->
  mem b cr = false ->
  exists c c2 wr added,
    requirements w = Present c true wr
    /\ requirements w2 = Present c2 true wr
    /\ universal_newlines c2 = universal_newlines c ++ added
    /\ contains (universal_newlines c2) a = true
    /\ contains (universal_newlines c2) b = true.
Proof.
  intros Ha Hb Hcra Hcrb.
  destruct (add_dependency_ok _ _ _ Ha)
    as (c & wr & R & D & [[Ea R1] | (Ea & Hwr & Dna & R1)]);
    destruct (add_dependency_ok _ _ _ Hb)
      as (c1 & wr1 & R1' & D1 & [[Eb R2] | (Eb & Hwr1 & Dnb & R2)]);
    rewrite R1 in R1'; injection R1' as Hc Hw; subst c1 wr1.
  - exists c, c, wr, []. rewrite app_nil_r. auto.
  - subst wr.
    exists c, (universal_newlines c ++ [nl] ++ b ++ [nl]), true,
      ([nl] ++ b ++ [nl]).
    rewrite (patch_reads_back c b Hcrb).
    repeat split; auto using contains_appended, contains_app_l.
  - subst wr.
    assert (Ha' :
      universal_newlines (universal_newlines c ++ nl :: a ++ [nl])
      = universal_newlines c ++ nl :: a ++ [nl])
      by exact (patch_reads_back c a Hcra).
    rewrite Ha' in Eb.
    exists c, (universal_newlines c ++ [nl] ++ a ++ [nl]), true,
      ([nl] ++ a ++ [nl]).
    rewrite (patch_reads_back c a Hcra).
    repeat split; auto using contains_appended.
  - subst wr.
    assert (Ha' :
      universal_newlines (universal_newlines c ++ nl :: a ++ [nl])
      = universal_newlines c ++ nl :: a ++ [nl])
      by exact (patch_reads_back c a Hcra).
    rewrite Ha' in R2.
    assert (Hback :
      universal_newlines
        ((universal_newlines c ++ [nl] ++ a ++ [nl]) ++ [nl] ++ b ++ [nl])
      = (universal_newlines c ++ [nl] ++ a ++ [nl]) ++ [nl] ++ b ++ [nl]).
    { apply universal_newlines_id.
      rewrite !mem_app, universal_newlines_clean, Hcra, Hcrb.
      reflexivity. }
    exists c,
      ((universal_newlines c ++ [nl] ++ a ++ [nl]) ++ [nl] ++ b ++ [nl]),
      true, (([nl] ++ a ++ [nl]) ++ [nl] ++ b ++ [nl]).
    rewrite Hback.
    split; [exact R|]. split; [exact R2|].
    split; [symmetry; apply app_assoc|].
    split; [apply contains_app_l, contains_appended
           |apply contains_appended].
Qed.

Lemma add_dependency_both_witness :
  exists c c2 wr added,
    requirements (world_of requests_manifest (inr []))
    = Present c true wr
    /\ requirements
         (snd (add_dependency flask
                 (snd (add_dependency yaml
                         (world_of requests_manifest (inr []))))))
       = Present c2 true wr
    /\ universal_newlines c2 = universal_newlines c ++ added
    /\ contains (universal_newlines c2) yaml = true
    /\ contains (universal_newlines c2) flask = true.
Proof.
  apply (add_dependency_both yaml flask
           (world_of requests_manifest (inr []))
           (snd (add_dependency yaml (world_of requests_manifest (inr []))))
           (snd (add_dependency flask
                   (snd (add_dependency yaml
                           (world_of requests_manifest (inr [])))))));
    reflexivity.
Defined.

(** When the patch step writes a name that has neither line feed nor
    carriage return, the lines of the manifest as read are the lines
    read before, then the name on a line of its own, then the empty rest
    behind the closing line break. *)
Theorem add_dependency_new_entry (name c : str) (w : World) :
  requirements w = Present c true true ->
  has_surrogate c = false ->
  has_surrogate name = false ->
  contains (universal_newlines c) name = false ->
  mem name nl = false ->
  mem name cr = false ->
  exists w1 c1,
    add_dependency name w = (inr tt, w1)
    /\ requirements w1 = Present c1 true true
    /\ entries (universal_newlines c1)
       = entries (universal_newlines c) ++ [name; []].
Proof.
  intros R D Dn E Hnl Hcr.
  pose proof (has_surrogate_patch c name D) as S. rewrite Dn in S.
  rewrite add_dependency_eq, R, D. cbv zeta. rewrite E, S.
  eexists. eexists. split; [reflexivity|]. fields.
  split; [reflexivity|].
  rewrite (patch_reads_back c name Hcr).
  change (universal_newlines c ++ [nl] ++ name ++ [nl])
    with (universal_newlines c ++ nl :: name ++ nl :: []).
  rewrite !entries_app, (entries_one_line name Hnl). reflexivity.
Qed.

Lemma add_dependency_new_entry_witness :
  exists w1 c1,
    add_dependency yaml
      (world_of (Present (of_string "requests" ++ [cr; nl]) true true)
         (inr []))
    = (inr tt, w1)
    /\ requirements w1 = Present c1 true true
    /\ entries (universal_newlines c1)
       = entries (universal_newlines (of_string "requests" ++ [cr; nl]))
         ++ [yaml; []].
Proof.
  apply (add_dependency_new_entry yaml (of_string "requests" ++ [cr; nl])
           (world_of (Present (of_string "requests" ++ [cr; nl]) true true)
              (inr []))); reflexivity.
Defined.

End PatcherMore.
(** ** Further properties of a whole run *)

Ltac sink_cases w :=
  rewrite post_pr_comment_eq; fields;
  destruct (run_info w) as [?e|[|?pr ?prs]] eqn:?I; cbv zeta;
  [ | | destruct (comment_post w) eqn:?P];
  unfold print, emit; fields.

Ltac act_cases w c name wr :=
  rewrite act_MissingDependency; file_cases w c name wr.

Section RunMore.

Lemma diagnose_returns (logs : str) : exists d, diagnose logs = inr d.
Proof.
  destruct (contains logs ModuleNotFoundError) eqn:E.
  - destruct (last_item_total
                (split_loop (length logs) logs No_module_named)
                (split_loop_nonempty _ _ _)) as [piece Hp].
    eexists. now apply diagnose_marker with (piece := piece).
  - exists Unknown. now apply diagnose_no_marker.
Qed.




End RunMore.

Section RunInvariants.

Lemma act_manifest (d : Diagnosis) (w w' : World) (r : result unit) :
  act d w = (r, w') ->
  requirements w' = requirements w
  \/ exists c name,
       d = MissingDependency name
       /\ requirements w = Present c true true
       /\ has_surrogate c = false
       /\ contains (universal_newlines c) name = false
       /\ ((has_surrogate name = false
            /\ requirements w'
               = Present (universal_newlines c ++ [nl] ++ name ++ [nl])
                   true true)
           \/ (has_surrogate name = true
               /\ r = inl UnicodeEncodeError
               /\ requirements w' = Present [] true true)).
Proof.
  destruct d as [name|].
  - act_cases w c name wr;
      try (intros H; injection H as <- <-; fields; now left).
    + sink_cases w; intros H; injection H as <- <-; fields; now left.
    + rewrite (has_surrogate_patch c name D) in S.
      intros H; injection H as <- <-; fields.
      right; exists c, name. auto 10.
    + rewrite (has_surrogate_patch c name D) in S.
      sink_cases w; intros H; injection H as <- <-; fields;
        right; exists c, name; auto 10.
  - intros H; injection H as <- <-. now left.
Qed.

(** The only changes a run ever makes to the manifest: it rewrites a
    readable and writable text file that does not hold the diagnosed
    name as the content it has read, with the name appended between two
    line breaks; or, when the codec rejects the name, it leaves that file
    empty and ends with [UnicodeEncodeError].  In every other case the
    manifest is as before. *)
Theorem run_manifest_grows (w w' : World) (r : result unit) :
  run w = (r, w') ->
  requirements w' = requirements w
  \/ exists c name logs,
       logs_archive w = inr logs
       /\ diagnose logs = inr (MissingDependency name)
       /\ requirements w = Present c true true
       /\ has_surrogate c = false
       /\ contains (universal_newlines c) name = false
       /\ ((has_surrogate name = false
            /\ requirements w'
               = Present (universal_newlines c ++ [nl] ++ name ++ [nl])
                   true true)
           \/ (has_surrogate name = true
               /\ r = inl UnicodeEncodeError
               /\ requirements w' = Present [] true true)).
Proof.
  rewrite run_eq.
  destruct (logs_archive w) as [e|logs] eqn:L.
  - intros H; injection H as <- <-. now left.
  - destruct (diagnose logs) as [e|d] eqn:D.
    + intros H; injection H as <- <-. now left.
    + intros H.
      apply act_manifest in H as [H | (c & name & -> & R & Dc & E & H)].
      * now left.
      * right. exists c, name, logs. auto 10.
Qed.

Lemma run_manifest_grows_witness :
  requirements
    (snd (run (world_of (Present (of_string "requests" ++ [cr; nl])
                           true true) (inr yaml_message))))
  = requirements (world_of (Present (of_string "requests" ++ [cr; nl])
                              true true) (inr yaml_message))
  \/ exists c name logs,
       logs_archive (world_of (Present (of_string "requests" ++ [cr; nl])
                                 true true) (inr yaml_message))
       = inr logs
       /\ diagnose logs = inr (MissingDependency name)
       /\ requirements (world_of (Present (of_string "requests" ++ [cr; nl])
                                    true true) (inr yaml_message))
          = Present c true true
       /\ has_surrogate c = false
       /\ contains (universal_newlines c) name = false
       /\ ((has_surrogate name = false
            /\ requirements
                 (snd (run (world_of
                              (Present (of_string "requests" ++ [cr; nl])
                                 true true) (inr yaml_message))))
               = Present (universal_newlines c ++ [nl] ++ name ++ [nl])
                   true true)
           \/ (has_surrogate name = true
               /\ fst (run (world_of
                              (Present (of_string "requests" ++ [cr; nl])
                                 true true) (inr yaml_message)))
                  = inl UnicodeEncodeError
               /\ requirements
                    (snd (run (world_of
                                 (Present (of_string "requests" ++ [cr; nl])
                                    true true) (inr yaml_message))))
                  = Present [] true true)).
Proof.
  apply (run_manifest_grows
           (world_of (Present (of_string "requests" ++ [cr; nl]) true true)
              (inr yaml_message))
           (snd (run (world_of
                        (Present (of_string "requests" ++ [cr; nl])
                           true true) (inr yaml_message))))
           (fst (run (world_of
                        (Present (of_string "requests" ++ [cr; nl])
                           true true) (inr yaml_message))))).
  reflexivity.
Defined.

End RunInvariants.

Section RunScenarios.

(** A log without the gate word makes the run return after the local
    notice: the manifest is not even read, and the reporting sink is not
    called. *)
Theorem run_no_marker (logs : str) (w : World) :
  logs_archive w = inr logs ->
  contains logs ModuleNotFoundError = false ->
  exists w',
    run w = (inr tt, w')
    /\ requirements w' = requirements w
    /\ trace w' = trace w ++ [FetchLogs; Print no_fix_line].
Proof.
  intros L Hgate.
  rewrite run_eq, L, (diagnose_no_marker logs Hgate).
  eexists. split; [reflexivity|]. fields.
  split; [reflexivity|]. now rewrite <- app_assoc.
Qed.

Lemma run_no_marker_witness :
  exists w',
    run (world_of requests_manifest (inr (of_string "All checks passed")))
    = (inr tt, w')
    /\ requirements w'
       = requirements
           (world_of requests_manifest (inr (of_string "All checks passed")))
    /\ trace w'
       = trace (world_of requests_manifest
                  (inr (of_string "All checks passed")))
         ++ [FetchLogs; Print no_fix_line].
Proof.
  apply (run_no_marker (of_string "All checks passed")
           (world_of requests_manifest (inr (of_string "All checks passed"))));
    reflexivity.
Defined.

(** When the log retrieval raises, the run ends with that exception
    right after the request: no diagnosis, no file access, no report. *)
Theorem run_retrieval_error (e : exn) (w : World) :
  logs_archive w = inl e ->
  exists w',
    run w = (inl e, w')
    /\ requirements w' = requirements w
    /\ trace w' = trace w ++ [FetchLogs].
Proof.
  intros L. rewrite run_eq, L.
  eexists. split; [reflexivity|]. fields. auto.
Qed.

Lemma run_retrieval_error_witness :
  exists w',
    run (world_of requests_manifest (inl HTTPError)) = (inl HTTPError, w')
    /\ requirements w'
       = requirements (world_of requests_manifest (inl HTTPError))
    /\ trace w'
       = trace (world_of requests_manifest (inl HTTPError)) ++ [FetchLogs].
Proof.
  apply (run_retrieval_error HTTPError
           (world_of requests_manifest (inl HTTPError))).
  reflexivity.
Defined.

Lemma act_comment (d : Diagnosis) (w w' : World) (r : result unit) :
  act d w = (r, w') ->
  exists evs,
    trace w' = trace w ++ evs
    /\ (comments evs = []
        \/ exists pr prs name,
             d = MissingDependency name
             /\ run_info w = inr (pr :: prs)
             /\ comments evs = [(pr, report name)]).
Proof.
  destruct d as [name|].
  - act_cases w c name wr;
      try (intros H; injection H as <- <-; fields;
           eexists; split; [reflexivity|]; now left);
      sink_cases w; intros H; injection H as <- <-; fields;
      eexists; (split; [rewrite <- ?app_assoc; reflexivity|]);
      try (now left);
      right; exists pr, prs, name; auto.
  - intros H; injection H as <- <-. fields.
    eexists; split; [reflexivity|]. now left.
Qed.

(** Whatever a run sends as a comment goes to the first pull request of
    the run and is the report for the diagnosed name; without a pull
    request, or with no dependency diagnosed, no comment is sent. *)
Theorem run_comment (w w' : World) (r : result unit) :
  run w = (r, w') ->
  exists evs,
    trace w' = trace w ++ evs
    /\ (comments evs = []
        \/ exists pr prs name logs,
             logs_archive w = inr logs
             /\ diagnose logs = inr (MissingDependency name)
             /\ run_info w = inr (pr :: prs)
             /\ comments evs = [(pr, report name)]).
Proof.
  rewrite run_eq.
  destruct (logs_archive w) as [e|logs] eqn:L.
  - intros H; injection H as <- <-. fields.
    eexists; split; [reflexivity|]. now left.
  - destruct (diagnose logs) as [e|d] eqn:D.
    + intros H; injection H as <- <-. fields.
      eexists; split; [reflexivity|]. now left.
    + intros H. apply act_comment in H as (evs & Ht & Hc).
      exists (FetchLogs :: evs). split.
      * revert Ht; fields; intros ->. now rewrite <- app_assoc.
      * destruct Hc as [Hc | (pr & prs & name & -> & I & Hc)];
          [now left|].
        right. exists pr, prs, name, logs. auto.
Qed.

Lemma run_comment_witness :
  exists evs,
    trace (snd (run (world_of requests_manifest (inr yaml_message))))
    = trace (world_of requests_manifest (inr yaml_message)) ++ evs
    /\ (comments evs = []
        \/ exists pr prs name logs,
             logs_archive (world_of requests_manifest (inr yaml_message))
             = inr logs
             /\ diagnose logs = inr (MissingDependency name)
             /\ run_info (world_of requests_manifest (inr yaml_message))
                = inr (pr :: prs)
             /\ comments evs = [(pr, report name)]).
Proof.
  apply (run_comment
           (world_of requests_manifest (inr yaml_message))
           (snd (run (world_of requests_manifest (inr yaml_message))))
           (fst (run (world_of requests_manifest (inr yaml_message))))).
  reflexivity.
Defined.

End RunScenarios.

Section EmptyName.

Lemma strip_all_space (ws : str) :
  forallb isspace ws = true -> strip ws = [].
Proof.
  intros H. unfold strip.
  rewrite <- (app_nil_r ws).
  change (ws ++ []) with (ws ++ [] ++ []).
  now apply strip_by_exact.
Qed.

Lemma diagnose_empty_name (pre ws : str) :
  contains pre ModuleNotFoundError = true ->
  forallb isspace ws = true ->
  diagnose (pre ++ No_module_named ++ ws) = inr (MissingDependency []).
Proof.
  intros Hgate Hws.
  rewrite diagnose_parts.
  - now rewrite strip_all_space.
  - now apply contains_app_l.
  - apply find_behind_None;
      [exact No_module_named_nonempty | exact No_module_named_borderless |].
    apply contains_false.
    change No_module_named with (78%N :: of_string "o module named").
    now apply find_in_class with (p := isspace).
Qed.

Lemma act_without_patch (name c : str) (wr : bool) (w : World) :
  requirements w = Present c true wr ->
  has_surrogate c = false ->
  contains (universal_newlines c) name = true ->
  exists r w' rest,
    act (MissingDependency name) w = (r, w')
    /\ requirements w' = requirements w
    /\ trace w' = trace w ++ ReadText :: SinkCall (report name) :: rest
    /\ file_writes rest = [].
Proof.
  intros R D E.
  rewrite act_MissingDependency, add_dependency_eq, R, D. cbv zeta.
  rewrite E.
  sink_cases w; do 3 eexists; (split; [reflexivity|]); fields;
    (split; [now rewrite R|]);
    (split; [rewrite <- ?app_assoc; reflexivity | reflexivity]).
Qed.

(** The empty name: a log that holds the gate word and ends, but for
    whitespace, with the words [No module named] is diagnosed as a
    missing dependency without a name; as the empty text is part of every
    content, the run then writes nothing to a readable text manifest,
    whatever it holds, and still calls the reporting sink with the report
    for the empty name. *)
Theorem run_empty_name (pre ws c : str) (wr : bool) (w : World) :
  logs_archive w = inr (pre ++ No_module_named ++ ws) ->
  contains pre ModuleNotFoundError = true ->
  forallb isspace ws = true ->
  requirements w = Present c true wr ->
  has_surrogate c = false ->
  exists r w' rest,
    run w = (r, w')
    /\ requirements w' = requirements w
    /\ trace w' = trace w ++ FetchLogs :: ReadText
                          :: SinkCall (report []) :: rest
    /\ file_writes rest = [].
Proof.
  intros L Hgate Hws R D.
  rewrite run_eq, L, (diagnose_empty_name pre ws Hgate Hws).
  destruct (act_without_patch [] c wr
              (with_trace (trace w ++ [FetchLogs]) w) R D
              (contains_nil (universal_newlines c)))
    as (r & w' & rest & Hact & Hreq & Ht & Hw).
  exists r, w', rest. split; [exact Hact|].
  split; [exact Hreq|]. split; [|exact Hw].
  revert Ht; fields; intros ->. now rewrite <- app_assoc.
Qed.

Lemma run_empty_name_witness :
  exists r w' rest,
    run (world_of requests_manifest
           (inr (of_string "ModuleNotFoundError: " ++ No_module_named
                 ++ [nl])))
    = (r, w')
    /\ requirements w'
       = requirements
           (world_of requests_manifest
              (inr (of_string "ModuleNotFoundError: " ++ No_module_named
                    ++ [nl])))
    /\ trace w'
       = trace (world_of requests_manifest
                  (inr (of_string "ModuleNotFoundError: " ++ No_module_named
                        ++ [nl])))
         ++ FetchLogs :: ReadText :: SinkCall (report []) :: rest
    /\ file_writes rest = [].
Proof.
  apply (run_empty_name (of_string "ModuleNotFoundError: ") [nl]
           (of_string "requests" ++ [nl]) true
           (world_of requests_manifest
              (inr (of_string "ModuleNotFoundError: " ++ No_module_named
                    ++ [nl]))));
    reflexivity.
Defined.

End EmptyName.

(** ** Start-up *)

Section StartUp.

(** The tool is built exactly when the three settings are present, and
    then carries their values, the token also in the authorization
    header; otherwise the [KeyError] names the first missing setting, in
    the order token, repository, run. *)
Theorem GitHubTool_init_result (env : environ) :
  (forall tool,
      GitHubTool_init env = inr tool
      <-> env GITHUB_TOKEN = Some (token tool)
          /\ env REPO = Some (repo tool)
          /\ env RUN_ID = Some (run_id tool)
          /\ headers tool
             = [(of_string "Authorization",
                 of_string "Bearer " ++ token tool);
                (of_string "Accept",
                 of_string "application/vnd.github+json")])
  /\ (forall f,
        GitHubTool_init env = inl f
        <-> (f = KeyError GITHUB_TOKEN /\ env GITHUB_TOKEN = None)
            \/ (f = KeyError REPO
                /\ env GITHUB_TOKEN <> None /\ env REPO = None)
            \/ (f = KeyError RUN_ID
                /\ env GITHUB_TOKEN <> None /\ env REPO <> None
                /\ env RUN_ID = None)).
Proof.
  unfold GitHubTool_init, getitem. cbn [bind ret outcome_monad].
  destruct (env GITHUB_TOKEN) as [t|]; [destruct (env REPO) as [r|];
    [destruct (env RUN_ID) as [i|]|]|]; split.
  all: try (intros tool; split;
            [intros H; first [discriminate H
                             | injection H as <-; cbn; auto]
            |intros (Ht & Hr & Hi & Hh);
             first [discriminate
                   | destruct tool; cbn in *; congruence]]).
  all: intros f; split;
    [intros H;
     first [discriminate H
           | injection H as <-;
             first [left; repeat split; congruence
                   | right; left; repeat split; congruence
                   | right; right; repeat split; congruence]]
    |intros [[-> H] | [[-> H] | [-> H]]];
     first [reflexivity | discriminate H
           | destruct H as (H1 & H2); first [discriminate H2 | congruence]
           | destruct H as (H1 & H2 & H3);
             first [discriminate H3 | congruence]]].
Qed.

(** A missing setting ends the invocation with its [KeyError] before
    anything has happened: no request, no file access, no console line.
    With the three settings present the invocation is the run. *)
Theorem main_startup (env : environ) (w : World) :
  (env GITHUB_TOKEN = None \/ env REPO = None \/ env RUN_ID = None ->
   exists key, main env w = (inl (KeyError key), w) /\ env key = None)
  /\ (env GITHUB_TOKEN <> None -> env REPO <> None -> env RUN_ID <> None ->
      main env w
      = (match fst (run w) with
         | inl e => inl (Raised e)
         | inr u => inr u
         end, snd (run w))).
Proof.
  unfold main, CIFixAgent_init, GitHubTool_init, getitem.
  cbn [bind ret outcome_monad].
  split.
  - intros H.
    destruct (env GITHUB_TOKEN) eqn:T; [|exists GITHUB_TOKEN; auto].
    destruct (env REPO) eqn:Rp; [|exists REPO; auto].
    destruct (env RUN_ID) eqn:I; [|exists RUN_ID; auto].
    destruct H as [H | [H | H]]; discriminate H.
  - intros HT HR HI.
    destruct (env GITHUB_TOKEN); [|congruence].
    destruct (env REPO); [|congruence].
    destruct (env RUN_ID); [|congruence].
    now destruct (run w) as [[e|u] w'].
Qed.

Lemma main_startup_witness :
  exists key,
    main (fun _ => None) (world_of requests_manifest (inr yaml_message))
    = (inl (KeyError key), world_of requests_manifest (inr yaml_message))
    /\ (fun _ : str => @None str) key = None.
Proof.
  apply (proj1 (main_startup (fun _ => None)
                  (world_of requests_manifest (inr yaml_message)))).
  now left.
Defined.

End StartUp.

Lemma GitHubTool_init_result_witness :
  GitHubTool_init (fun _ => Some (of_string "x"))
  = inr {| token := of_string "x";
           repo := of_string "x";
           run_id := of_string "x";
           headers :=
             [(of_string "Authorization", of_string "Bearer x");
              (of_string "Accept",
               of_string "application/vnd.github+json")] |}.
Proof.
  apply (proj1 (GitHubTool_init_result (fun _ => Some (of_string "x")))).
  repeat split.
Defined.

(** ** Log retrieval *)

Section LogRetrieval.

Lemma namelist_intact (zip_file : list (str * str)) :
  namelist (map intact zip_file) = map fst zip_file.
Proof.
  unfold namelist. rewrite map_map. reflexivity.
Qed.

Lemma NameToInfo_absent (zip_file : list member) (name : str) :
  ~ In name (namelist zip_file) -> NameToInfo zip_file name = None.
Proof.
  induction zip_file as [|[n data] rest IH]; [reflexivity|].
  simpl. intros H.
  rewrite IH by tauto.
  destruct (list_eq_dec N.eq_dec n name); [tauto | reflexivity].
Qed.

Lemma NameToInfo_distinct (zip_file : list member) (name : str)
  (data : result str) :
  NoDup (namelist zip_file) -> In (name, data) zip_file ->
  NameToInfo zip_file name = Some data.
Proof.
  induction zip_file as [|[n d] rest IH]; [contradiction|].
  simpl. intros Hnd [H | H]; inversion Hnd as [|? ? Hnotin Hnd']; subst.
  - injection H as -> ->.
    rewrite NameToInfo_absent by assumption.
    destruct (list_eq_dec N.eq_dec name name); [reflexivity | congruence].
  - now rewrite IH.
Qed.

Lemma read_members_distinct (zip_file : list member) :
  NoDup (namelist zip_file) ->
  forall (members : list (str * str)) (logs : str),
    incl (map intact members) zip_file ->
    read_members zip_file (map fst members) logs
    = inr (logs ++ concat (map snd members)).
Proof.
  intros Hnd members.
  induction members as [|[n d] members IH]; intros logs Hincl.
  - simpl. now rewrite app_nil_r.
  - simpl. unfold zip_read.
    rewrite (NameToInfo_distinct zip_file n (inr d) Hnd)
      by (apply Hincl; now left).
    rewrite IH by (intros x Hx; apply Hincl; now right).
    now rewrite app_assoc.
Qed.

Lemma status_passes (status : N) :
  ((status <? 400) || (600 <=? status))%N = true ->
  ((400 <=? status) && (status <? 600))%N = false.
Proof.
  intros Hs. apply orb_true_iff in Hs as [H | H].
  - apply N.ltb_lt in H. apply andb_false_iff. left.
    apply N.leb_gt. exact H.
  - apply N.leb_le in H. apply andb_false_iff. right.
    apply N.ltb_ge. exact H.
Qed.

(** An answer outside the error statuses with a readable archive of
    distinctly named members that all read gives the members' texts,
    joined in archive order with nothing between them. *)
Theorem fetch_logs_distinct (status : N) (zip_file : list (str * str)) :
  ((status <? 400) || (600 <=? status))%N = true ->
  NoDup (map fst zip_file) ->
  fetch_logs (inr {| status_code := status;
                     archive := inr (map intact zip_file) |})
  = inr (concat (map snd zip_file)).
Proof.
  intros Hs Hnd. unfold fetch_logs, raise_for_status.
  cbn [status_code archive].
  rewrite (status_passes status Hs), namelist_intact.
  rewrite read_members_distinct;
    [reflexivity | now rewrite namelist_intact | apply incl_refl].
Qed.

Lemma fetch_logs_distinct_witness :
  fetch_logs
    (inr {| status_code := 200;
            archive :=
              inr (map intact
                     [(of_string "1_build.txt", of_string "Module");
                      (of_string "2_test.txt",
                       of_string "NotFoundError")]) |})
  = inr (of_string "ModuleNotFoundError").
Proof.
  apply (fetch_logs_distinct 200
           [(of_string "1_build.txt", of_string "Module");
            (of_string "2_test.txt", of_string "NotFoundError")]).
  - reflexivity.
  - repeat constructor; simpl; intuition discriminate.
Defined.




End LogRetrieval.

Section RetrievalThenDiagnosis.

Lemma contains_concat (texts : list str) (text sub : str) :
  In text texts -> contains text sub = true ->
  contains (concat texts) sub = true.
Proof.
  induction texts as [|t texts IH]; [contradiction|].
  simpl. intros [-> | H] Hc.
  - now apply contains_app_l.
  - apply contains_app_r. now apply IH.
Qed.

Lemma diagnose_gate (logs : str) :
  contains logs ModuleNotFoundError = true ->
  exists name, diagnose logs = inr (MissingDependency name).
Proof.
  intros Hgate.
  destruct (last_item_total
              (split_loop (length logs) logs No_module_named)
              (split_loop_nonempty _ _ _)) as [piece Hp].
  eexists. now apply diagnose_marker with (piece := piece).
Qed.

(** Retrieval and diagnosis compose: when one member of a well-formed
    archive holds the gate word, the joined log is diagnosed as a missing
    dependency, wherever in the archive that member is. *)
Theorem fetched_gate_diagnosed (status : N) (zip_file : list (str * str))
  (name text : str) :
  ((status <? 400) || (600 <=? status))%N = true ->
  NoDup (map fst zip_file) ->
  In (name, text) zip_file ->
  contains text ModuleNotFoundError = true ->
  exists logs missing,
    fetch_logs (inr {| status_code := status;
                       archive := inr (map intact zip_file) |})
    = inr logs
    /\ diagnose logs = inr (MissingDependency missing).
Proof.
  intros Hs Hnd Hin Hgate.
  assert (Hlogs :
    contains (concat (map snd zip_file)) ModuleNotFoundError = true).
  { apply contains_concat with (text := text); [|assumption].
    change text with (snd (name, text)). now apply in_map. }
  destruct (diagnose_gate _ Hlogs) as [missing Hd].
  exists (concat (map snd zip_file)), missing. split; [|exact Hd].
  unfold fetch_logs, raise_for_status. cbn [status_code archive].
  rewrite (status_passes status Hs), namelist_intact.
  rewrite read_members_distinct;
    [reflexivity | now rewrite namelist_intact | apply incl_refl].
Qed.

Lemma fetched_gate_diagnosed_witness :
  exists logs missing,
    fetch_logs
      (inr {| status_code := 200;
              archive :=
                inr (map intact
                       [(of_string "1_build.txt", of_string "ok");
                        (of_string "2_test.txt", yaml_message)]) |})
    = inr logs
    /\ diagnose logs = inr (MissingDependency missing).
Proof.
  apply (fetched_gate_diagnosed 200
           [(of_string "1_build.txt", of_string "ok");
            (of_string "2_test.txt", yaml_message)]
           (of_string "2_test.txt") yaml_message).
  - reflexivity.
  - repeat constructor; simpl; intuition discriminate.
  - right; left; reflexivity.
  - reflexivity.
Defined.

End RetrievalThenDiagnosis.

(** ** The report *)

Section Report.

Lemma app_same_length (a b x y : str) :
  length a = length b -> a ++ x = b ++ y -> a = b.
Proof.
  revert b; induction a as [|c a IH]; intros [|d b] Hlen H;
    try discriminate Hlen; [reflexivity|].
  simpl in Hlen, H. injection H as -> H.
  f_equal. apply IH; [lia | assumption].
Qed.

Lemma report_length (dep : str) :
  length (report dep) = 2 * length dep + length (report []).
Proof.
  unfold report. rewrite !length_app. simpl. lia.
Qed.

(** The report names the dependency twice, between backquotes, and two
    names never share a report. *)
Theorem report_names_dependency (dep : str) :
  contains (report dep)
    (of_string "- Missing Python dependency: `" ++ dep ++ of_string "`")
  = true
  /\ contains (report dep)
       (of_string "- Added `" ++ dep ++ of_string "` to dependencies")
     = true
  /\ forall other, report other = report dep -> other = dep.
Proof.
  split; [|split].
  - replace (report dep)
      with (([nl; 129302%N] ++ of_string " **CI Janitor Report**"
             ++ [nl; nl] ++ of_string "**Error Detected**" ++ [nl])
            ++ (of_string "- Missing Python dependency: `" ++ dep
                ++ of_string "`")
            ++ ([nl; nl] ++ of_string "**Root Cause**" ++ [nl]
                ++ of_string "- Dependency not listed in `requirements.txt`"
                ++ [nl; nl] ++ of_string "**Proposed Fix**" ++ [nl]
                ++ of_string "- Added `" ++ dep
                ++ of_string "` to dependencies" ++ [nl; nl]
                ++ of_string "**Status**" ++ [nl]
                ++ of_string "- Awaiting human approval before merge"
                ++ [nl]))
      by (unfold report; now rewrite <- !app_assoc).
    apply contains_app.
  - replace (report dep)
      with (([nl; 129302%N] ++ of_string " **CI Janitor Report**"
             ++ [nl; nl] ++ of_string "**Error Detected**" ++ [nl]
             ++ of_string "- Missing Python dependency: `" ++ dep
             ++ of_string "`" ++ [nl; nl]
             ++ of_string "**Root Cause**" ++ [nl]
             ++ of_string "- Dependency not listed in `requirements.txt`"
             ++ [nl; nl] ++ of_string "**Proposed Fix**" ++ [nl])
            ++ (of_string "- Added `" ++ dep
                ++ of_string "` to dependencies")
            ++ ([nl; nl] ++ of_string "**Status**" ++ [nl]
                ++ of_string "- Awaiting human approval before merge"
                ++ [nl]))
      by (unfold report; now rewrite <- !app_assoc).
    apply contains_app.
  - intros other H.
    assert (Hlen : length other = length dep).
    { apply (f_equal (@length char)) in H.
      rewrite (report_length other), (report_length dep) in H. lia. }
    unfold report in H.
    do 6 apply app_inv_head in H.
    exact (app_same_length _ _ _ _ Hlen H).
Qed.

End Report.

Lemma report_names_dependency_witness :
  report yaml = report yaml /\ yaml = yaml.
Proof.
  split; [reflexivity|].
  apply (proj2 (proj2 (report_names_dependency yaml)) yaml). reflexivity.
Defined.

(** ** Applying a fix, and running again *)

Section ApplyAndRepeat.



Lemma act_frame (d : Diagnosis) (w w' : World) (r : result unit) :
  act d w = (r, w') ->
  logs_archive w' = logs_archive w
  /\ run_info w' = run_info w
  /\ comment_post w' = comment_post w.
Proof.
  destruct d as [name|].
  - act_cases w c name wr;
      try (intros H; injection H as <- <-; fields; auto);
      sink_cases w; intros H; injection H as <- <-; fields; auto.
  - intros H; injection H as <- <-. fields. auto.
Qed.

(** After [act] for a name without carriage return, a manifest that is
    readable and writable text and lacks the name can only be the empty
    file that a rejected write has left. *)
Lemma act_settles (name c1 : str) (w w1 : World) (r : result unit) :
  act (MissingDependency name) w = (r, w1) ->
  mem name cr = false ->
  requirements w1 = Present c1 true true ->
  has_surrogate c1 = false ->
  contains (universal_newlines c1) name = false ->
  has_surrogate name = true /\ c1 = [].
Proof.
  intros Hact Hcr.
  revert Hact.
  act_cases w c name wr.
  - intros H; injection H as <- <-; fields. congruence.
  - intros H; injection H as <- <-; fields. rewrite R.
    intros H; injection H as <-. congruence.
  - sink_cases w; intros H; injection H as <- <-; fields; rewrite R;
      intros H; injection H as <- <-; congruence.
  - rewrite (has_surrogate_patch c name D) in S.
    intros H; injection H as <- <-; fields.
    intros H; injection H as <-. auto.
  - assert (Hback :
      universal_newlines (universal_newlines c ++ nl :: name ++ [nl])
      = universal_newlines c ++ nl :: name ++ [nl])
      by exact (patch_reads_back c name Hcr).
    assert (Hin :
      contains (universal_newlines c ++ nl :: name ++ [nl]) name = true)
      by exact (contains_appended (universal_newlines c) name).
    sink_cases w; intros H; injection H as <- <-; fields;
      intros H; injection H as <-;
      rewrite Hback, Hin; intros _ H; discriminate H.
  - intros H; injection H as <- <-; fields. rewrite R.
    intros H; discriminate H.
  - intros H; injection H as <- <-; fields. rewrite R.
    intros H; discriminate H.
Qed.

(** Running again: when the diagnosed name has no carriage return, a
    second run on the same logs never changes the manifest, whatever the
    first run ended with. *)
Theorem run_again (w w1 w2 : World) (r1 r2 : result unit) :
  run w = (r1, w1) ->
  run w1 = (r2, w2) ->
  (forall logs name,
      logs_archive w = inr logs ->
      diagnose logs = inr (MissingDependency name) ->
      mem name cr = false) ->
  requirements w2 = requirements w1.
Proof.
  rewrite !run_eq.
  destruct (logs_archive w) as [e|logs] eqn:L.
  - intros H; injection H as <- <-. fields. rewrite L.
    intros H; injection H as <- <-. reflexivity.
  - destruct (diagnose logs) as [e|d] eqn:D.
    + intros H; injection H as <- <-. fields. rewrite L, D.
      intros H; injection H as <- <-. reflexivity.
    + intros H1.
      destruct (act_frame _ _ _ _ H1) as (L1 & _ & _).
      revert L1; fields; intros L1. rewrite L1, L, D.
      intros H2 Hcr.
      apply act_manifest in H2
        as [H2 | (c & name & -> & R & Dc & E & H2)]; [exact H2|].
      revert R; fields; intros R.
      destruct (act_settles _ _ _ _ _ H1 (Hcr logs name eq_refl D)
                  R Dc E) as [Dn ->].
      destruct H2 as [[Dn' _] | (_ & _ & H2)]; [congruence|].
      revert H2; fields; intros H2. congruence.
Qed.

Lemma run_again_witness :
  requirements
    (snd (run (snd (run (world_of requests_manifest (inr yaml_message))))))
  = requirements (snd (run (world_of requests_manifest (inr yaml_message)))).
Proof.
  apply (run_again
           (world_of requests_manifest (inr yaml_message))
           (snd (run (world_of requests_manifest (inr yaml_message))))
           (snd (run (snd (run (world_of requests_manifest
                                  (inr yaml_message))))))
           (fst (run (world_of requests_manifest (inr yaml_message))))
           (fst (run (snd (run (world_of requests_manifest
                                  (inr yaml_message)))))));
    [reflexivity | reflexivity |].
  intros logs name L D.
  injection L as <-.
  change (diagnose yaml_message) with (@inr exn _ (MissingDependency yaml))
    in D.
  injection D as <-. reflexivity.
Defined.

End ApplyAndRepeat.
